(** * The MailSlurp helper for CodeceptJS: model and properties

    A shallow embedding of the helper class [MailSlurp] (the TypeScript
    source, and [index.js], its older JavaScript edition with the same
    method bodies) together with the properties of its query translation,
    wait operations, fixture life cycle and content assertions.

    The vendor SDK ([mailslurp-client]) is an external collaborator.  It is
    modelled as an arbitrary function from the history of requests and the
    request at hand to the way the promise settles and the moment at which
    it does, so every theorem holds for every behaviour of the service. *)

From Stdlib Require Import String Ascii List ZArith Lia Bool DecimalString.
Import ListNotations.

Local Open Scope string_scope.
Local Open Scope list_scope.

(** * JavaScript primitives the helper relies on *)

Module JS.

  (** Strings are sequences of bytes; the characters the helper inspects
      ([=], letters of field names, the comma) are ASCII. *)

  (** [s[0]]: the first character, [undefined] on the empty string. *)
Definition at0 (s : string) : option ascii :=
    match s with
    | EmptyString => None
    | String c _ => Some c
    end.

  (** [s[0] === c] for a one-character string [c]. *)
Definition at0_is (s : string) (c : ascii) : bool :=
    match at0 s with
    | Some d => Ascii.eqb d c
    | None => false
    end.

Definition is_lower (c : ascii) : bool :=
    let n := nat_of_ascii c in (97 <=? n)%nat && (n <=? 122)%nat.

Definition upper_char (c : ascii) : ascii :=
    if is_lower c then ascii_of_nat (nat_of_ascii c - 32) else c.

  (** [String.prototype.toUpperCase] on the ASCII range: the letters
      [a]..[z] move to [A]..[Z], every other byte is kept. *)
Fixpoint toUpperCase (s : string) : string :=
    match s with
    | EmptyString => EmptyString
    | String c rest => String (upper_char c) (toUpperCase rest)
    end.

  (** [String.prototype.includes]. *)
Fixpoint includes (s sub : string) : bool :=
    String.prefix sub s ||
    match s with
    | EmptyString => false
    | String _ rest => includes rest sub
    end.

  (** [Array.prototype.join] on an array of strings. *)
Fixpoint join (sep : string) (l : list string) : string :=
    match l with
    | [] => EmptyString
    | [x] => x
    | x :: rest => x ++ sep ++ join sep rest
    end.

  (** Numbers.  The helper only computes with whole numbers (seconds,
      milliseconds, counts).  A JavaScript number is a double: a whole
      number is kept exactly up to 53 significant bits and a product is
      rounded to the nearest representable value, ties to even (the
      overflow to [Infinity] beyond [2^1024] is left out). *)
Definition round_double (z : Z) : Z :=
    let a := Z.abs z in
    if (a <? 2 ^ 53)%Z then z
    else
      let k := (Z.log2 a - 52)%Z in
      let q := Z.shiftr a k in
      let r := (a - Z.shiftl q k)%Z in
      let half := Z.shiftl 1 (k - 1) in
      let q' :=
        if (r <? half)%Z then q
        else if (half <? r)%Z then (q + 1)%Z
        else if Z.even q then q else (q + 1)%Z in
      (Z.sgn z * Z.shiftl q' k)%Z.

  (** [a * b] on whole numbers. *)
Definition mul (a b : Z) : Z := round_double (a * b).

  (** Truthiness of an optional number: [undefined] and [0] are falsy. *)
Definition truthy (n : option Z) : bool :=
    match n with
    | Some z => negb (z =? 0)%Z
    | None => false
    end.

  (** [n || d] where [d] is a number. *)
Definition or_else (n : option Z) (d : Z) : Z :=
    match n with
    | Some z => if (z =? 0)%Z then d else z
    | None => d
    end.

  (** Truthiness of an optional string: [undefined] and the empty string
      are falsy. *)
Definition truthy_string (s : option string) : bool :=
    match s with
    | Some (String _ _) => true
    | _ => false
    end.

  (** A number inside a template literal. *)
Definition string_of_nat (n : nat) : string :=
    NilZero.string_of_uint (Nat.to_uint n).

  (** The double-quote character. *)
Definition dquote : string := String (ascii_of_nat 34) EmptyString.

End JS.

(** * Data exchanged with the service *)

Module Inbox.
Record t : Type := mk { id : string; emailAddress : string }.
  (** The helper installs [toString = () => inbox.emailAddress] on every
      inbox it hands out. *)
Definition toString (inbox : t) : string := emailAddress inbox.
End Inbox.

Module Email.
Record t : Type := mk {
    id : string;
    from : string;
    to : list string;
    subject : string;
    body : string;
    attachments : list string
  }.
End Email.

Module EmailPreview.
Record t : Type := mk { id : string; subject : string }.
End EmailPreview.

Module AttachmentMetaData.
Record t : Type := mk { name : string; contentType : string }.
End AttachmentMetaData.

Module SendEmailOptions.
Record t : Type := mk {
    to : list string;
    subject : string;
    body : string;
    attachments : list string
  }.
End SendEmailOptions.

(** The rule kind of a match option; on the wire ['EQUAL'] and ['CONTAIN']. *)
Inductive Should : Type := EQUAL | CONTAIN.

Definition Should_wire (s : Should) : string :=
  match s with
  | EQUAL => "EQUAL"
  | CONTAIN => "CONTAIN"
  end.

Module MatchOption.
Record t : Type := mk { field : string; value : string; should : Should }.
End MatchOption.

Module MatchOptions.
Record t : Type := mk { matches : list MatchOption.t }.
End MatchOptions.

(** A query object: its own properties in the order [Object.entries] lists
    them.  The keys of a query are field names ([from], [to], [subject],
    [cc], [bcc]); for such keys that order is the insertion order. *)
Definition Query : Type := list (string * string).

Definition Object_entries (options : Query) : list (string * string) := options.

(** * Query translation *)

(** [matchEmailBy(options)]. *)
Definition matchEmailBy (options : Query) : MatchOptions.t :=
  MatchOptions.mk
    (map (fun entry : string * string =>
            let (key, value) := entry in
            if JS.at0_is value "="%char then
              MatchOption.mk (JS.toUpperCase key) value EQUAL
            else
              MatchOption.mk (JS.toUpperCase key) value CONTAIN)
         (Object_entries options)).

(** * Failures *)

Module Expect.
  (** What the [expect] library is asked to compare. *)
Inductive value : Type :=
  | Str (s : string)
  | Num (n : Z).

  (** A failed expectation: the matcher, whether it was negated with
      [.not], the value under test and the expected value (none for
      [toBeFalsy]).  The report of the library shows the value under test. *)
Record failure : Type := mk {
    matcher : string;
    negated : bool;
    received : value;
    expected : option value
  }.
End Expect.

Inductive error : Type :=
| Error (message : string)            (* [throw new Error(message)] *)
| TypeError (property : string)       (* reading [property] of null or undefined *)
| SyntaxError (pattern : string)      (* [new RegExp(pattern)] on an invalid pattern *)
| AssertionError (f : Expect.failure) (* thrown by [expect] *)
| Rejection (reason : string).        (* a promise of the SDK rejected; opaque *)

Inductive result (A : Type) : Type :=
| Ok (a : A)
| Throw (e : error).

Arguments Ok {A} a.
Arguments Throw {A} e.

(** How a promise settles: resolved with a value or rejected with a
    reason. *)
Definition Promise (A : Type) : Type := result A.

(** A promise in flight: the moment at which it settles, and how. *)
Definition Pending (A : Type) : Type := (nat * Promise A)%type.

(** The rejection that happens first among the promises of an array: the
    one with the least moment (of two rejections at the same moment, the
    one of the earlier element). *)
Fixpoint first_rejection {A : Type} (ps : list (Pending A)) : option (nat * error) :=
  match ps with
  | [] => None
  | (t, Throw e) :: rest =>
      match first_rejection rest with
      | Some (t', e') => if (t' <? t)%nat then Some (t', e') else Some (t, e)
      | None => Some (t, e)
      end
  | (_, Ok _) :: rest => first_rejection rest
  end.

(** The values of the resolved promises of an array, in the order of the
    array. *)
Fixpoint resolved_values {A : Type} (ps : list (Pending A)) : list A :=
  match ps with
  | [] => []
  | (_, Ok a) :: rest => a :: resolved_values rest
  | (_, Throw _) :: rest => resolved_values rest
  end.

(** The moment the last promise of an array settles. *)
Fixpoint last_moment {A : Type} (ps : list (Pending A)) : nat :=
  match ps with
  | [] => 0
  | (t, _) :: rest => Nat.max t (last_moment rest)
  end.

(** [Promise.all]: it rejects as soon as one of the promises rejects, with
    the reason of that rejection, and resolves once all have resolved, with
    the values in the order of the array. *)
Definition Promise_all {A : Type} (ps : list (Pending A)) : Pending (list A) :=
  match first_rejection ps with
  | Some (t, e) => (t, Throw e)
  | None => (last_moment ps, Ok (resolved_values ps))
  end.

(** * The SDK client *)

Module MailSlurpClient.

Inductive request : Type :=
  | createInbox
  | getInbox (inboxId : string)
  | deleteInbox (inboxId : string)
  | sendEmail (inboxId : string) (data : SendEmailOptions.t)
  | waitForLatestEmail (inboxId : string) (timeout : Z)
  | waitForMatchingEmails (matchOptions : MatchOptions.t) (count : option Z)
                          (inboxId : string) (timeout : Z)
  | waitForNthEmail (inboxId : string) (index : Z) (timeout : Z)
  | getEmails (inboxId : string)
  | getEmail (emailId : string)
  | getAttachmentMetaData (attachmentId : string) (emailId : string).

  (** What the promise of a request resolves to. *)
Definition reply (r : request) : Type :=
    match r with
    | createInbox | getInbox _ => Inbox.t
    | deleteInbox _ | sendEmail _ _ => unit
    | waitForLatestEmail _ _ | waitForNthEmail _ _ _ | getEmail _ => Email.t
    | waitForMatchingEmails _ _ _ _ | getEmails _ => list EmailPreview.t
    | getAttachmentMetaData _ _ => AttachmentMetaData.t
    end.

  (** The service: how the promise of a request settles, given the requests
      made before it, and the moment at which it settles.  A service is
      applied to a history and a request as a function. *)
Record t : Type := mk {
  settle : list request -> forall r : request, Promise (reply r);
  settled_at : list request -> request -> nat
}.

End MailSlurpClient.

Coercion MailSlurpClient.settle : MailSlurpClient.t >-> Funclass.

(** * The helper *)

Module Configuration.
  (** The [config] argument of the constructor; every key may be absent. *)
Record t : Type := mk {
    apiKey : option string;
    timeout : option Z;
    debug : option bool
  }.
End Configuration.

Module Config.
  (** [this.config] once the constructor has accepted it. *)
Record t : Type := mk { apiKey : string; timeout : Z; debug : bool }.
End Config.

Module MailSlurp.
  (** The fields of the helper.  [mailboxes] is undefined until [_before]
      runs; [None] stands for [null] and [undefined] alike. *)
Record t : Type := mk {
    config : Config.t;
    mailboxes : option (list Inbox.t);
    currentMailbox : option Inbox.t;
    currentEmail : option Email.t
  }.

Definition set_mailboxes (v : option (list Inbox.t)) (h : t) : t :=
    mk (config h) v (currentMailbox h) (currentEmail h).
Definition set_currentMailbox (v : option Inbox.t) (h : t) : t :=
    mk (config h) (mailboxes h) v (currentEmail h).
Definition set_currentEmail (v : option Email.t) (h : t) : t :=
    mk (config h) (mailboxes h) (currentMailbox h) v.
End MailSlurp.

(** [constructor(config)]: [Object.assign(defaults, config)], then the
    check of the API key. *)
Definition constructor (config : Configuration.t) : result MailSlurp.t :=
  let timeout := match Configuration.timeout config with Some t => t | None => 10000%Z end in
  let debug := match Configuration.debug config with Some d => d | None => false end in
  if JS.truthy_string (Configuration.apiKey config) then
    match Configuration.apiKey config with
    | Some key => Ok (MailSlurp.mk (Config.mk key timeout debug) None None None)
    | None => Throw (Error "MailSlurp is not configured! Please provide API key to access your account")
    end
  else Throw (Error "MailSlurp is not configured! Please provide API key to access your account").

(** The state a method runs in: the helper's fields, the requests made to
    the service so far, and the lines written by [debug]. *)
Record State : Type := mkState {
  this : MailSlurp.t;
  calls : list MailSlurpClient.request;
  console : list string
}.

(** Computations of the helper: they read and write the state and either
    return or throw.  An [async] method is run to the point where its
    promise settles. *)
Definition M (A : Type) : Type := State -> result A * State.

Definition ret {A : Type} (a : A) : M A := fun s => (Ok a, s).

Definition throw {A : Type} (e : error) : M A := fun s => (Throw e, s).

Definition bind {A B : Type} (c : M A) (k : A -> M B) : M B :=
  fun s =>
    match c s with
    | (Ok a, s') => k a s'
    | (Throw e, s') => (Throw e, s')
    end.

Declare Scope helper_scope.
Delimit Scope helper_scope with helper.
Notation "x <- c ;; k" := (bind c (fun x => k))
  (at level 61, c at next level, right associativity) : helper_scope.
Notation "c ;; k" := (bind c (fun _ => k))
  (at level 61, right associativity) : helper_scope.
Local Open Scope helper_scope.

Definition get_this : M MailSlurp.t := fun s => (Ok (this s), s).

Definition update_this (f : MailSlurp.t -> MailSlurp.t) : M unit :=
  fun s => (Ok tt, mkState (f (this s)) (calls s) (console s)).

(** [debug(msg)] of [lib/Output]. *)
Definition debug (msg : string) : M unit :=
  fun s => (Ok tt, mkState (this s) (calls s) (console s ++ [msg])).

(** [await p]. *)
Definition await {A : Type} (p : Pending A) : M A := fun s => (snd p, s).

(** [o.property] where [o] may be null or undefined. *)
Definition prop {X A : Type} (o : option X) (name : string) (f : X -> A) : M A :=
  match o with
  | Some x => ret (f x)
  | None => throw (TypeError name)
  end.

(** [Array.prototype.map] with a callback that acts on the state. *)
Fixpoint Array_map {A B : Type} (f : A -> M B) (l : list A) : M (list B) :=
  match l with
  | [] => ret []
  | a :: rest =>
      b <- f a ;;
      bs <- Array_map f rest ;;
      ret (b :: bs)
  end.

(** [expect(received).toContain(expected)] on strings, and its negation. *)
Definition expect_toContain (received expected : string) : M unit :=
  if JS.includes received expected then ret tt
  else throw (AssertionError
    (Expect.mk "toContain" false (Expect.Str received) (Some (Expect.Str expected)))).

Definition expect_not_toContain (received expected : string) : M unit :=
  if JS.includes received expected then
    throw (AssertionError
      (Expect.mk "toContain" true (Expect.Str received) (Some (Expect.Str expected))))
  else ret tt.

(** [expect(received).toEqual(expected)] on strings, and its negation. *)
Definition expect_toEqual (received expected : string) : M unit :=
  if String.eqb received expected then ret tt
  else throw (AssertionError
    (Expect.mk "toEqual" false (Expect.Str received) (Some (Expect.Str expected)))).

Definition expect_not_toEqual (received expected : string) : M unit :=
  if String.eqb received expected then
    throw (AssertionError
      (Expect.mk "toEqual" true (Expect.Str received) (Some (Expect.Str expected))))
  else ret tt.

(** [expect(received).toEqual(expected)] on numbers. *)
Definition expect_toEqual_number (received expected : Z) : M unit :=
  if (received =? expected)%Z then ret tt
  else throw (AssertionError
    (Expect.mk "toEqual" false (Expect.Num received) (Some (Expect.Num expected)))).

(** [expect(received).toBeFalsy()] on a string: only the empty string is
    falsy. *)
Definition expect_toBeFalsy (received : string) : M unit :=
  match received with
  | EmptyString => ret tt
  | String _ _ =>
      throw (AssertionError (Expect.mk "toBeFalsy" false (Expect.Str received) None))
  end.

Section Helper.

(** [this.mailslurp], the SDK client the constructor creates. *)
Variable mailslurp : MailSlurpClient.t.

(** Regular expressions of the JavaScript engine: [new RegExp(source)]
    ([None] when it throws a SyntaxError) and whether
    [name.match(regexp)] is non-null. *)
Variable RegExp : Type.
Variable RegExp_new : string -> option RegExp.
Variable String_match : string -> RegExp -> bool.

(** Calling a method of the client: the request goes out and a promise
    comes back. *)
Definition request (r : MailSlurpClient.request)
  : M (Pending (MailSlurpClient.reply r)) :=
  fun s => (Ok (MailSlurpClient.settled_at mailslurp (calls s) r, mailslurp (calls s) r),
            mkState (this s) (calls s ++ [r]) (console s)).

(** [await this.mailslurp.method(...)]. *)
Definition call (r : MailSlurpClient.request) : M (MailSlurpClient.reply r) :=
  p <- request r ;; await p.

(** [this.currentMailbox.id]. *)
Definition currentMailbox_id : M string :=
  h <- get_this ;; prop (MailSlurp.currentMailbox h) "id" Inbox.id.

(** [this.mailboxes.push(inbox)]. *)
Definition mailboxes_push (inbox : Inbox.t) : M unit :=
  h <- get_this ;;
  match MailSlurp.mailboxes h with
  | Some l => update_this (MailSlurp.set_mailboxes (Some (l ++ [inbox])))
  | None => throw (TypeError "push")
  end.

(** [printEmailDebug.call(this, email)]. *)
Definition printEmailDebug (email : Email.t) : M unit :=
  h <- get_this ;;
  if Config.debug (MailSlurp.config h) then
    debug ("Received email from " ++ Email.from email ++ " with " ++ Email.subject email)
  else ret tt.

Definition _before : M unit :=
  update_this (MailSlurp.set_mailboxes (Some [])) ;;
  update_this (MailSlurp.set_currentMailbox None) ;;
  update_this (MailSlurp.set_currentEmail None).

Definition _after : M unit :=
  h <- get_this ;;
  match MailSlurp.mailboxes h with
  | None => ret tt
  | Some [] => ret tt
  | Some ms =>
      promises <-
        Array_map (B := Pending unit)
          (fun m => request (MailSlurpClient.deleteInbox (Inbox.id m))) ms ;;
      await (Promise_all promises) ;;
      (if Config.debug (MailSlurp.config h) then
         debug ("Removed " ++ JS.string_of_nat (length ms) ++ " mailboxes")
       else ret tt) ;;
      update_this (MailSlurp.set_mailboxes (Some [])) ;;
      update_this (MailSlurp.set_currentMailbox None) ;;
      update_this (MailSlurp.set_currentEmail None)
  end.

Definition haveNewMailbox : M Inbox.t :=
  inbox <- call MailSlurpClient.createInbox ;;
  mailboxes_push inbox ;;
  update_this (MailSlurp.set_currentMailbox (Some inbox)) ;;
  ret inbox.

Definition haveExistingMailbox (mailboxId : option string) : M Inbox.t :=
  match mailboxId with
  | Some (String c rest) =>
      inbox <- call (MailSlurpClient.getInbox (String c rest)) ;;
      mailboxes_push inbox ;;
      update_this (MailSlurp.set_currentMailbox (Some inbox)) ;;
      ret inbox
  | _ => throw (Error "Id of existing mailbox must be provided in parameters.")
  end.

Definition openMailbox (mailbox : option Inbox.t) : M unit :=
  update_this (MailSlurp.set_currentMailbox mailbox).

Definition openEmail (email : option Email.t) : M unit :=
  update_this (MailSlurp.set_currentEmail email).

Definition sendEmail (data : SendEmailOptions.t) : M unit :=
  id <- currentMailbox_id ;;
  call (MailSlurpClient.sendEmail id data).

(** [if (sec) sec = 1000*sec;] *)
Definition to_millis (sec : option Z) : option Z :=
  if JS.truthy sec then option_map (JS.mul 1000) sec else sec.

Definition waitForLatestEmail (sec : option Z) : M Email.t :=
  let sec := to_millis sec in
  id <- currentMailbox_id ;;
  h <- get_this ;;
  email <- call (MailSlurpClient.waitForLatestEmail id
                   (JS.or_else sec (Config.timeout (MailSlurp.config h)))) ;;
  printEmailDebug email ;;
  update_this (MailSlurp.set_currentEmail (Some email)) ;;
  ret email.

Definition waitForEmailMatching (query : Query) (sec : option Z) : M Email.t :=
  let sec := to_millis sec in
  let matchOptions := matchEmailBy query in
  id <- currentMailbox_id ;;
  h <- get_this ;;
  emailPreviews <- call (MailSlurpClient.waitForMatchingEmails matchOptions (Some 1%Z) id
                           (JS.or_else sec (Config.timeout (MailSlurp.config h)))) ;;
  emailId <- prop (nth_error emailPreviews 0) "id" EmailPreview.id ;;
  email <- call (MailSlurpClient.getEmail emailId) ;;
  printEmailDebug email ;;
  update_this (MailSlurp.set_currentEmail (Some email)) ;;
  ret email.

Definition waitForNthEmail (number : Z) (sec : option Z) : M Email.t :=
  let sec := to_millis sec in
  id <- currentMailbox_id ;;
  h <- get_this ;;
  email <- call (MailSlurpClient.waitForNthEmail id number
                   (JS.or_else sec (Config.timeout (MailSlurp.config h)))) ;;
  update_this (MailSlurp.set_currentEmail (Some email)) ;;
  printEmailDebug email ;;
  ret email.

Definition grabEmailsMatching (query : Query) (num : option Z) : M (list Email.t) :=
  let matchOptions := matchEmailBy query in
  id <- currentMailbox_id ;;
  h <- get_this ;;
  emailPreviews <- call (MailSlurpClient.waitForMatchingEmails matchOptions num id
                           (Config.timeout (MailSlurp.config h))) ;;
  debug ("Received " ++ JS.string_of_nat (length emailPreviews) ++ " emails") ;;
  promises <-
    Array_map (B := Pending Email.t)
      (fun e => request (MailSlurpClient.getEmail (EmailPreview.id e)))
      emailPreviews ;;
  await (Promise_all promises).

Definition grabAllEmailsFromMailbox : M (list Email.t) :=
  id <- currentMailbox_id ;;
  emailPreviews <- call (MailSlurpClient.getEmails id) ;;
  debug ("Received " ++ JS.string_of_nat (length emailPreviews) ++ " emails") ;;
  promises <-
    Array_map (B := Pending Email.t)
      (fun e => request (MailSlurpClient.getEmail (EmailPreview.id e)))
      emailPreviews ;;
  await (Promise_all promises).

Definition _hasCurrentEmail : M unit :=
  h <- get_this ;;
  match MailSlurp.currentEmail h with
  | Some _ => ret tt
  | None => throw (Error "No email opened. Open an email with waitForEmail* methods")
  end.

(** [const email = this.currentEmail;] followed by a read of a field. *)
Definition email_field {A : Type} (name : string) (f : Email.t -> A) : M A :=
  h <- get_this ;; prop (MailSlurp.currentEmail h) name f.

Definition seeInEmailSubject (text : string) : M unit :=
  _hasCurrentEmail ;;
  subject <- email_field "subject" Email.subject ;;
  expect_toContain subject text.

Definition dontSeeInEmailSubject (text : string) : M unit :=
  _hasCurrentEmail ;;
  subject <- email_field "subject" Email.subject ;;
  expect_not_toContain subject text.

Definition seeInEmailBody (text : string) : M unit :=
  _hasCurrentEmail ;;
  body <- email_field "body" Email.body ;;
  expect_toContain body text.

Definition dontSeeInEmailBody (text : string) : M unit :=
  _hasCurrentEmail ;;
  body <- email_field "body" Email.body ;;
  expect_not_toContain body text.

Definition seeEmailIsFrom (text : string) : M unit :=
  _hasCurrentEmail ;;
  from <- email_field "from" Email.from ;;
  expect_toContain from text.

Definition seeEmailSubjectEquals (text : string) : M unit :=
  _hasCurrentEmail ;;
  subject <- email_field "subject" Email.subject ;;
  expect_toEqual subject text.

Definition dontSeeEmailSubjectEquals (text : string) : M unit :=
  _hasCurrentEmail ;;
  subject <- email_field "subject" Email.subject ;;
  expect_not_toEqual subject text.

Definition seeNumberOfEmailAttachments (number : Z) : M unit :=
  _hasCurrentEmail ;;
  attachments <- email_field "attachments" Email.attachments ;;
  expect_toEqual_number (Z.of_nat (length attachments)) number.

(** The loop [for (let attachmentId of email.attachments)] of
    [seeEmailAttachment]; the boolean tells whether the loop was left by
    [return], the list is [foundAttachmentNames]. *)
Fixpoint seeEmailAttachment_loop (nameRegExp : string) (emailId : string)
    (attachments : list string) (foundAttachmentNames : list string)
  : M (bool * list string) :=
  match attachments with
  | [] => ret (false, foundAttachmentNames)
  | attachmentId :: rest =>
      attachmentMetaData <-
        call (MailSlurpClient.getAttachmentMetaData attachmentId emailId) ;;
      match RegExp_new nameRegExp with
      | None => throw (SyntaxError nameRegExp)
      | Some regexp =>
          if String_match (AttachmentMetaData.name attachmentMetaData) regexp then
            ret (true, foundAttachmentNames)
          else
            seeEmailAttachment_loop nameRegExp emailId rest
              (foundAttachmentNames ++ [AttachmentMetaData.name attachmentMetaData])
      end
  end.

(** The text handed to [expect] when no attachment matched. *)
Definition attachment_not_found (nameRegExp subject : string)
    (foundAttachmentNames : list string) : string :=
  "Attachment with name " ++ JS.dquote ++ nameRegExp ++ JS.dquote
  ++ " not found in e-mail with subject " ++ JS.dquote ++ subject ++ JS.dquote ++ "."
  ++ (if (0 <? length foundAttachmentNames)%nat then
        " Found attachments: " ++ JS.dquote ++ JS.join "," foundAttachmentNames ++ JS.dquote
      else " No attachments found at all in e-mail.").

Definition seeEmailAttachment (nameRegExp : string) : M unit :=
  _hasCurrentEmail ;;
  email <- email_field "attachments" (fun email => email) ;;
  out <- seeEmailAttachment_loop nameRegExp (Email.id email) (Email.attachments email) [] ;;
  let (returned, foundAttachmentNames) := out : bool * list string in
  if returned then ret tt
  else expect_toBeFalsy
         (attachment_not_found nameRegExp (Email.subject email) foundAttachmentNames).

End Helper.

(** * A service for examples

    The replies of the mocked service in the repository's test suite: inbox
    [123], one e-mail [Hello Test] with one attachment [README.md]. *)

Definition test_inbox : Inbox.t := Inbox.mk "123" "hello@test.de".

Definition test_email : Email.t :=
  Email.mk "email-id" "hello@test.de" ["hello@test.de"] "Hello Test" "Testing"
           ["mock-attachment-id"].

Definition test_preview : EmailPreview.t := EmailPreview.mk "email-id" "Hello Test".

Definition test_client : MailSlurpClient.t :=
  MailSlurpClient.mk (fun _ r =>
    match r return Promise (MailSlurpClient.reply r) with
    | MailSlurpClient.createInbox => Ok test_inbox
    | MailSlurpClient.getInbox _ => Ok test_inbox
    | MailSlurpClient.deleteInbox _ => Ok tt
    | MailSlurpClient.sendEmail _ _ => Ok tt
    | MailSlurpClient.waitForLatestEmail _ _ => Ok test_email
    | MailSlurpClient.waitForMatchingEmails _ _ _ _ => Ok [test_preview]
    | MailSlurpClient.waitForNthEmail _ _ _ => Ok test_email
    | MailSlurpClient.getEmails _ => Ok [test_preview]
    | MailSlurpClient.getEmail _ => Ok test_email
    | MailSlurpClient.getAttachmentMetaData _ _ =>
        Ok (AttachmentMetaData.mk "README.md" "text/plain")
    end) (fun hist _ => length hist).

(** A stand-in for the regular expressions of the engine in examples: a
    pattern without special characters matches the names that include it. *)
Definition literal_RegExp_new (source : string) : option string := Some source.

Definition literal_String_match (name regexp : string) : bool :=
  JS.includes name regexp.

(** The helper right after [new MailSlurp({ apiKey: 'someApiKey' })] and
    [_before()]. *)
Definition test_helper : MailSlurp.t :=
  MailSlurp.mk (Config.mk "someApiKey" 10000 false) (Some []) None None.

Definition test_state (h : MailSlurp.t) : State := mkState h [] [].

(** The helper of the test suite with the inbox of the test opened. *)
Definition test_opened : State :=
  test_state (MailSlurp.set_currentMailbox (Some test_inbox) test_helper).

(** The test [should send and receive an email] of the repository, on a
    helper made by [new MailSlurp({ apiKey: 'someApiKey' })], between the
    hooks [_before] and [_after]. *)
Definition test_send_and_receive : M unit :=
  _before ;;
  mailbox <- haveNewMailbox test_client ;;
  sendEmail test_client
    (SendEmailOptions.mk [Inbox.emailAddress mailbox] "Hello Test" "Testing"
       ["mock-attachment-id"]) ;;
  waitForLatestEmail test_client (Some 50%Z) ;;
  seeInEmailSubject "Hello" ;;
  seeEmailSubjectEquals "Hello Test" ;;
  seeEmailIsFrom (Inbox.emailAddress mailbox) ;;
  seeInEmailBody "Testing" ;;
  dontSeeInEmailBody "Email" ;;
  dontSeeInEmailSubject "Bye" ;;
  seeNumberOfEmailAttachments 1 ;;
  seeEmailAttachment test_client string literal_RegExp_new literal_String_match "README" ;;
  _after test_client.

Definition run_test (test : M unit) : result (result unit * State) :=
  match constructor (Configuration.mk (Some "someApiKey") None None) with
  | Ok h => Ok (test (test_state h))
  | Throw e => Throw e
  end.

(** A fixture with three recorded mailboxes and an open e-mail. *)
Definition three_mailboxes : State :=
  test_state
    (MailSlurp.mk (Config.mk "someApiKey" 10000 false)
       (Some [Inbox.mk "a" "a@test.de"; Inbox.mk "b" "b@test.de"; Inbox.mk "c" "c@test.de"])
       (Some (Inbox.mk "c" "c@test.de"))
       (Some test_email)).

(** A service that refuses to delete inbox [b] and otherwise answers as
    [test_client]. *)
Definition refusing_client : MailSlurpClient.t :=
  MailSlurpClient.mk (fun hist r =>
    match r return Promise (MailSlurpClient.reply r) with
    | MailSlurpClient.deleteInbox inboxId =>
        if String.eqb inboxId "b" then Throw (Rejection "inbox not found") else Ok tt
    | r' => test_client hist r'
    end) (fun hist _ => length hist).

(** A service on which two requests of a fan-out are rejected, the first of
    the array late and the second at once.  It refuses to delete the
    inboxes [a], at moment 9, and [b], at moment 1; it lists the previews
    [slow-id] and [fast-id] and refuses to fetch their messages, at moment
    9 and at moment 1. *)
Definition racing_client : MailSlurpClient.t :=
  MailSlurpClient.mk (fun hist r =>
    match r return Promise (MailSlurpClient.reply r) with
    | MailSlurpClient.deleteInbox inboxId =>
        if String.eqb inboxId "a" then Throw (Rejection "slow")
        else if String.eqb inboxId "b" then Throw (Rejection "fast")
        else Ok tt
    | MailSlurpClient.waitForMatchingEmails _ _ _ _ =>
        Ok [EmailPreview.mk "slow-id" "Hello Test"; EmailPreview.mk "fast-id" "Hello Test"]
    | MailSlurpClient.getEmails _ =>
        Ok [EmailPreview.mk "slow-id" "Hello Test"; EmailPreview.mk "fast-id" "Hello Test"]
    | MailSlurpClient.getEmail emailId =>
        if String.eqb emailId "slow-id" then Throw (Rejection "slow")
        else if String.eqb emailId "fast-id" then Throw (Rejection "fast")
        else Ok test_email
    | r' => test_client hist r'
    end)
    (fun _ r =>
       match r with
       | MailSlurpClient.deleteInbox inboxId => if String.eqb inboxId "a" then 9 else 1
       | MailSlurpClient.getEmail emailId => if String.eqb emailId "slow-id" then 9 else 1
       | _ => 0
       end).

(** A service on which no message matches: the wait resolves with an empty
    array. *)
Definition silent_client : MailSlurpClient.t :=
  MailSlurpClient.mk (fun hist r =>
    match r return Promise (MailSlurpClient.reply r) with
    | MailSlurpClient.waitForMatchingEmails _ _ _ _ => Ok []
    | r' => test_client hist r'
    end) (fun hist _ => length hist).

(** * Vocabulary of the properties *)

(** The value begins with the character [=]. *)
Definition starts_with_equals (value : string) : Prop :=
  exists rest, value = String "="%char rest.

(** No letter [a]..[z] occurs in the string. *)
Fixpoint no_lower (s : string) : bool :=
  match s with
  | EmptyString => true
  | String c rest => negb (JS.is_lower c) && no_lower rest
  end.

(** The rule that belongs to one entry of a query. *)
Definition translates (entry : string * string) (rule : MatchOption.t) : Prop :=
  MatchOption.field rule = JS.toUpperCase (fst entry) /\
  no_lower (MatchOption.field rule) = true /\
  MatchOption.value rule = snd entry /\
  (MatchOption.should rule = EQUAL <-> starts_with_equals (snd entry)) /\
  (MatchOption.should rule = CONTAIN <-> ~ starts_with_equals (snd entry)).

(** The state [s'] extends the requests of [s] by [r] first, and then
    possibly by more. *)
Definition requests_next (s : State) (r : MailSlurpClient.request) (s' : State) : Prop :=
  exists rest, calls s' = calls s ++ r :: rest.

(** The fixture state is empty. *)
Definition fixture_empty (h : MailSlurp.t) : Prop :=
  MailSlurp.mailboxes h = Some [] /\
  MailSlurp.currentMailbox h = None /\
  MailSlurp.currentEmail h = None.

Definition delete_request (m : Inbox.t) : MailSlurpClient.request :=
  MailSlurpClient.deleteInbox (Inbox.id m).

(** How the service settles the deletions of [ms], requested one after the
    other once [hist] has been requested. *)
Fixpoint delete_promises (mailslurp : MailSlurpClient.t)
    (hist : list MailSlurpClient.request) (ms : list Inbox.t) : list (Promise unit) :=
  match ms with
  | [] => []
  | m :: rest =>
      mailslurp hist (delete_request m)
      :: delete_promises mailslurp (hist ++ [delete_request m]) rest
  end.

(** The same deletions in flight, each with the moment it settles. *)
Fixpoint delete_pending (mailslurp : MailSlurpClient.t)
    (hist : list MailSlurpClient.request) (ms : list Inbox.t) : list (Pending unit) :=
  match ms with
  | [] => []
  | m :: rest =>
      (MailSlurpClient.settled_at mailslurp hist (delete_request m),
       mailslurp hist (delete_request m))
      :: delete_pending mailslurp (hist ++ [delete_request m]) rest
  end.

(** [e] is the reason of a rejection among [ps] that no other rejection
    among [ps] precedes. *)
Definition rejected_first {A : Type} (ps : list (Pending A)) (e : error) : Prop :=
  exists t,
    In (t, Throw e) ps /\
    forall t' e', In (t', Throw e') ps -> t <= t'.

Definition metadata_request (emailId attachmentId : string) : MailSlurpClient.request :=
  MailSlurpClient.getAttachmentMetaData attachmentId emailId.

(** The service resolves the metadata of the attachments [ids], requested
    one after the other once [hist] has been requested, and [names] are the
    names it reports. *)
Fixpoint resolves_names (mailslurp : MailSlurpClient.t) (emailId : string)
    (hist : list MailSlurpClient.request) (ids names : list string) : Prop :=
  match ids, names with
  | [], [] => True
  | a :: ids', n :: names' =>
      (exists meta, mailslurp hist (metadata_request emailId a) = Ok meta
                    /\ AttachmentMetaData.name meta = n)
      /\ resolves_names mailslurp emailId (hist ++ [metadata_request emailId a]) ids' names'
  | _, _ => False
  end.

(** The state once the metadata of the attachments [ids] of the e-mail
    [emailId] has been requested. *)
Definition metadata_asked (emailId : string) (s : State) (ids : list string) : State :=
  mkState (this s) (calls s ++ map (metadata_request emailId) ids) (console s).

(** The failure of a content assertion on a helper without an open e-mail. *)
Definition NoOpenMessage : error :=
  Error "No email opened. Open an email with waitForEmail* methods".

(** The failure of [haveExistingMailbox] without an id. *)
Definition MissingParameter : error :=
  Error "Id of existing mailbox must be provided in parameters.".

(** The timeout a wait operation asks for: the whole seconds of the caller
    in milliseconds, or the configured timeout. *)
Definition default_timeout (s : State) : Z := Config.timeout (MailSlurp.config (this s)).

(** A computation that leaves the fields of the helper as they are,
    whether it returns or throws. *)
Definition preserves_this {A : Type} (c : M A) : Prop :=
  forall s, this (snd (c s)) = this s.

(** A promise that resolved, a promise that rejected. *)
Definition resolved {A : Type} (p : Promise A) : Prop := exists a, p = Ok a.

Definition rejected {A : Type} (p : Promise A) : Prop := exists e, p = Throw e.

(** [sub] occurs in [s]. *)
Definition substring_of (sub s : string) : Prop :=
  exists pre post, s = (pre ++ sub ++ post)%string.

(** * Vocabulary of the properties of the life cycle *)

Definition getEmail_request (e : EmailPreview.t) : MailSlurpClient.request :=
  MailSlurpClient.getEmail (EmailPreview.id e).

(** How the service settles the fetches of the messages of [previews],
    requested one after the other once [hist] has been requested. *)
Fixpoint getEmail_promises (mailslurp : MailSlurpClient.t)
    (hist : list MailSlurpClient.request) (previews : list EmailPreview.t)
  : list (Promise Email.t) :=
  match previews with
  | [] => []
  | e :: rest =>
      mailslurp hist (getEmail_request e)
      :: getEmail_promises mailslurp (hist ++ [getEmail_request e]) rest
  end.

(** The same fetches in flight, each with the moment it settles. *)
Fixpoint getEmail_pending (mailslurp : MailSlurpClient.t)
    (hist : list MailSlurpClient.request) (previews : list EmailPreview.t)
  : list (Pending Email.t) :=
  match previews with
  | [] => []
  | e :: rest =>
      (MailSlurpClient.settled_at mailslurp hist (getEmail_request e),
       mailslurp hist (getEmail_request e))
      :: getEmail_pending mailslurp (hist ++ [getEmail_request e]) rest
  end.

(** A computation that leaves one attribute of the helper as it is. *)
Definition preserves_field {F A : Type} (f : MailSlurp.t -> F) (c : M A) : Prop :=
  forall s, f (this (snd (c s))) = f (this s).

(** A computation that writes nothing with [debug]. *)
Definition preserves_console {A : Type} (c : M A) : Prop :=
  forall s, console (snd (c s)) = console s.

(** The inbox is one the service resolved a [createInbox] or a [getInbox]
    request with. *)
Definition from_service (mailslurp : MailSlurpClient.t) (inbox : Inbox.t) : Prop :=
  (exists hist, mailslurp hist MailSlurpClient.createInbox = Ok inbox) \/
  (exists hist inboxId, mailslurp hist (MailSlurpClient.getInbox inboxId) = Ok inbox).

(** The line [printEmailDebug] writes. *)
Definition received_email_line (email : Email.t) : string :=
  "Received email from " ++ Email.from email ++ " with " ++ Email.subject email.

(** The line the grab operations write. *)
Definition received_emails_line (n : nat) : string :=
  "Received " ++ JS.string_of_nat n ++ " emails".

(** The line [_after] writes. *)
Definition removed_mailboxes_line (n : nat) : string :=
  "Removed " ++ JS.string_of_nat n ++ " mailboxes".

(** The steps of a test: the methods of the helper a scenario may call
    between [_before] and [_after]. *)
Inductive action : Type :=
| HaveNewMailbox
| HaveExistingMailbox (mailboxId : option string)
| OpenMailbox (mailbox : option Inbox.t)
| OpenEmail (email : option Email.t)
| SendEmail (data : SendEmailOptions.t)
| WaitForLatestEmail (sec : option Z)
| WaitForEmailMatching (query : Query) (sec : option Z)
| WaitForNthEmail (number : Z) (sec : option Z)
| GrabEmailsMatching (query : Query) (num : option Z)
| GrabAllEmailsFromMailbox
| SeeInEmailSubject (text : string)
| DontSeeInEmailSubject (text : string)
| SeeInEmailBody (text : string)
| DontSeeInEmailBody (text : string)
| SeeEmailIsFrom (text : string)
| SeeEmailSubjectEquals (text : string)
| DontSeeEmailSubjectEquals (text : string)
| SeeNumberOfEmailAttachments (number : Z)
| SeeEmailAttachment (nameRegExp : string).

(** [await I.method(...)] as a statement: the value is dropped. *)
Definition statement {A : Type} (c : M A) : M unit := bind c (fun _ => ret tt).

(** One step of a test. *)
Definition perform (mailslurp : MailSlurpClient.t) (RegExp : Type)
    (RegExp_new : string -> option RegExp) (String_match : string -> RegExp -> bool)
    (a : action) : M unit :=
  match a with
  | HaveNewMailbox => statement (haveNewMailbox mailslurp)
  | HaveExistingMailbox mailboxId => statement (haveExistingMailbox mailslurp mailboxId)
  | OpenMailbox mailbox => openMailbox mailbox
  | OpenEmail email => openEmail email
  | SendEmail data => sendEmail mailslurp data
  | WaitForLatestEmail sec => statement (waitForLatestEmail mailslurp sec)
  | WaitForEmailMatching query sec => statement (waitForEmailMatching mailslurp query sec)
  | WaitForNthEmail number sec => statement (waitForNthEmail mailslurp number sec)
  | GrabEmailsMatching query num => statement (grabEmailsMatching mailslurp query num)
  | GrabAllEmailsFromMailbox => statement (grabAllEmailsFromMailbox mailslurp)
  | SeeInEmailSubject text => seeInEmailSubject text
  | DontSeeInEmailSubject text => dontSeeInEmailSubject text
  | SeeInEmailBody text => seeInEmailBody text
  | DontSeeInEmailBody text => dontSeeInEmailBody text
  | SeeEmailIsFrom text => seeEmailIsFrom text
  | SeeEmailSubjectEquals text => seeEmailSubjectEquals text
  | DontSeeEmailSubjectEquals text => dontSeeEmailSubjectEquals text
  | SeeNumberOfEmailAttachments number => seeNumberOfEmailAttachments number
  | SeeEmailAttachment nameRegExp =>
      seeEmailAttachment mailslurp RegExp RegExp_new String_match nameRegExp
  end.

(** The body of a test: its steps in order, up to the first one that
    throws. *)
Fixpoint test_body (mailslurp : MailSlurpClient.t) (RegExp : Type)
    (RegExp_new : string -> option RegExp) (String_match : string -> RegExp -> bool)
    (script : list action) : M unit :=
  match script with
  | [] => ret tt
  | a :: rest =>
      perform mailslurp RegExp RegExp_new String_match a ;;
      test_body mailslurp RegExp RegExp_new String_match rest
  end.

(** A helper that was constructed and whose [_before] has not run. *)
Definition test_fresh : State :=
  test_state (MailSlurp.mk (Config.mk "someApiKey" 10000 false) None None None).

(** The helper of the test suite with the e-mail of the test opened. *)
Definition test_reading : State :=
  test_state (MailSlurp.set_currentEmail (Some test_email) test_helper).

(** The helper of the test suite with [debug: true] and the inbox of the
    test opened. *)
Definition test_debugging : State :=
  test_state (MailSlurp.mk (Config.mk "someApiKey" 10000 true) (Some []) (Some test_inbox) None).

(** A service that cannot be reached. *)
Definition offline_client : MailSlurpClient.t :=
  MailSlurpClient.mk (fun _ _ => Throw (Rejection "network error"))
    (fun hist _ => length hist).

(** A pattern the engine refuses. *)
Definition no_RegExp_new (source : string) : option string := None.

(** An e-mail without attachments, and the helper with it opened. *)
Definition plain_email : Email.t :=
  Email.mk "plain-id" "hello@test.de" ["hello@test.de"] "Hello Test" "Testing" [].

Definition test_reading_plain : State :=
  test_state (MailSlurp.set_currentEmail (Some plain_email) test_helper).

(** * Properties of the primitives *)

Lemma upper_char_not_lower (c : ascii) : JS.is_lower (JS.upper_char c) = false.
Proof.
  destruct c as [b0 b1 b2 b3 b4 b5 b6 b7].
  destruct b0, b1, b2, b3, b4, b5, b6, b7; reflexivity.
Qed.

Lemma toUpperCase_no_lower (s : string) : no_lower (JS.toUpperCase s) = true.
Proof.
  induction s as [|c rest IH]; simpl.
  - reflexivity.
  - now rewrite upper_char_not_lower, IH.
Qed.

Lemma toUpperCase_length (s : string) :
  String.length (JS.toUpperCase s) = String.length s.
Proof.
  induction s as [|c rest IH]; simpl; congruence.
Qed.

Lemma at0_is_equals (value : string) :
  JS.at0_is value "="%char = true <-> starts_with_equals value.
Proof.
  unfold JS.at0_is, starts_with_equals.
  destruct value as [|c rest]; simpl.
  - split; [discriminate | intros [r Hr]; discriminate].
  - rewrite Ascii.eqb_eq. split.
    + intros ->. now exists rest.
    + intros [r Hr]. now inversion Hr.
Qed.

Lemma matchEmailBy_entry (key value : string) :
  translates (key, value)
    (if JS.at0_is value "="%char
     then MatchOption.mk (JS.toUpperCase key) value EQUAL
     else MatchOption.mk (JS.toUpperCase key) value CONTAIN).
Proof.
  unfold translates.
  destruct (JS.at0_is value "="%char) eqn:E; simpl;
    (split; [reflexivity | split; [apply toUpperCase_no_lower | split; [reflexivity|]]]).
  - apply at0_is_equals in E. split; split; intros H; try easy.
  - assert (N : ~ starts_with_equals value).
    { intros H. apply at0_is_equals in H. congruence. }
    split; split; intros H; try easy.
Qed.

(** * Query translation *)

(** C1.  For every query, [matchEmailBy] yields one rule per field, in the
    order of the fields of the query: the rule carries the field name in
    upper case and the value as it was given, its kind is [EQUAL] exactly
    when the value begins with [=] and [CONTAIN] otherwise; in the [EQUAL]
    case the value of the rule still begins with [=]. *)
Theorem matchEmailBy_one_rule_per_field (options : Query) :
  let rules := MatchOptions.matches (matchEmailBy options) in
  length rules = length options /\
  Forall2 translates options rules /\
  Forall (fun rule => MatchOption.should rule = EQUAL ->
                      starts_with_equals (MatchOption.value rule)) rules.
Proof.
  unfold matchEmailBy, Object_entries; simpl.
  split; [apply length_map|].
  induction options as [|[key value] rest [IH2 IHF]]; simpl.
  - split; constructor.
  - pose proof (matchEmailBy_entry key value) as T.
    split; constructor; auto.
    destruct T as (_ & _ & Hv & [He _] & _). simpl in Hv, He.
    intros H. rewrite Hv. auto.
Qed.

Lemma matchEmailBy_one_rule_per_field_witness :
  Forall2 translates
    [("subject", "=Forgot password"); ("from", "@mysite.com")]
    [MatchOption.mk "SUBJECT" "=Forgot password" EQUAL;
     MatchOption.mk "FROM" "@mysite.com" CONTAIN].
Proof.
  exact (proj1 (proj2 (matchEmailBy_one_rule_per_field
                         [("subject", "=Forgot password"); ("from", "@mysite.com")]))).
Defined.

(** * The test suite on the model *)

(** The test of the repository passes on the model, with the requests its
    mocked service expects (a wait of 50 seconds asks for 50000
    milliseconds), and ends with an empty fixture. *)
Example test_send_and_receive_passes :
  run_test test_send_and_receive
  = Ok (Ok tt,
        mkState
          (MailSlurp.mk (Config.mk "someApiKey" 10000 false) (Some []) None None)
          [MailSlurpClient.createInbox;
           MailSlurpClient.sendEmail "123"
             (SendEmailOptions.mk ["hello@test.de"] "Hello Test" "Testing"
                ["mock-attachment-id"]);
           MailSlurpClient.waitForLatestEmail "123" 50000;
           MailSlurpClient.getAttachmentMetaData "mock-attachment-id" "email-id";
           MailSlurpClient.deleteInbox "123"]
          []).
Proof. reflexivity. Qed.

(** * Running the methods *)

(** Unfolds the plumbing of [M]. *)
Ltac unfold_M :=
  unfold call, request, await, currentMailbox_id, mailboxes_push, printEmailDebug,
    email_field, prop, debug, update_this, get_this, bind, ret, throw in *.

(** Splits on every settled promise and every test left in the goal,
    innermost first. *)
Ltac split_cases :=
  repeat (simpl in *;
          match goal with
          | |- context [match ?x with _ => _ end] =>
              lazymatch x with
              | context [match _ with _ => _ end] => fail
              | _ => destruct x eqn:?
              end
          end).






Section Runs.

Variable mailslurp : MailSlurpClient.t.



Lemma waitForEmailMatching_requests (query : Query) (sec : option Z) (s : State)
    (inbox : Inbox.t) :
  MailSlurp.currentMailbox (this s) = Some inbox ->
  requests_next s
    (MailSlurpClient.waitForMatchingEmails (matchEmailBy query) (Some 1%Z) (Inbox.id inbox)
       (JS.or_else (to_millis sec) (default_timeout s)))
    (snd (waitForEmailMatching mailslurp query sec s)).
Proof.
  intros H. unfold requests_next, waitForEmailMatching, default_timeout. unfold_M.
  rewrite H. split_cases; eexists; rewrite <- ?app_assoc; reflexivity.
Qed.


(** What [waitForEmailMatching] does with the array of previews. *)
Lemma waitForEmailMatching_no_preview (query : Query) (sec : option Z) (s : State)
    (inbox : Inbox.t) :
  MailSlurp.currentMailbox (this s) = Some inbox ->
  let r := MailSlurpClient.waitForMatchingEmails (matchEmailBy query) (Some 1%Z)
             (Inbox.id inbox) (JS.or_else (to_millis sec) (default_timeout s)) in
  mailslurp (calls s) r = Ok [] ->
  waitForEmailMatching mailslurp query sec s
  = (Throw (TypeError "id"), mkState (this s) (calls s ++ [r]) (console s)).
Proof.
  intros H r Hr. unfold waitForEmailMatching. unfold_M. rewrite H. simpl.
  fold (default_timeout s). fold r. now rewrite Hr.
Qed.

Lemma waitForEmailMatching_first_preview (query : Query) (sec : option Z) (s : State)
    (inbox : Inbox.t) (p : EmailPreview.t) (others : list EmailPreview.t) :
  MailSlurp.currentMailbox (this s) = Some inbox ->
  let r := MailSlurpClient.waitForMatchingEmails (matchEmailBy query) (Some 1%Z)
             (Inbox.id inbox) (JS.or_else (to_millis sec) (default_timeout s)) in
  let g := MailSlurpClient.getEmail (EmailPreview.id p) in
  mailslurp (calls s) r = Ok (p :: others) ->
  fst (waitForEmailMatching mailslurp query sec s) = mailslurp (calls s ++ [r]) g /\
  calls (snd (waitForEmailMatching mailslurp query sec s)) = calls s ++ [r; g].
Proof.
  intros H r g Hr. unfold waitForEmailMatching. unfold_M. rewrite H. simpl.
  fold (default_timeout s). fold r. rewrite Hr. simpl. fold g.
  split_cases; rewrite <- ?app_assoc; auto.
Qed.

End Runs.

(** * The empty query *)

(** C2, as it fails.  The empty query is translated without an error, and
    [waitForEmailMatching] sends the resulting specification, which has no
    rule, to the wait operation of the service and returns its message. *)
Lemma empty_query_reaches_the_service :
  matchEmailBy [] = MatchOptions.mk [] /\
  fst (waitForEmailMatching test_client [] None test_opened) = Ok test_email /\
  calls (snd (waitForEmailMatching test_client [] None test_opened))
  = [MailSlurpClient.waitForMatchingEmails (MatchOptions.mk []) (Some 1%Z) "123" 10000;
     MailSlurpClient.getEmail "email-id"].
Proof. repeat split. Qed.

(** C2, amended.  Translating the empty query succeeds with a specification
    that has no rule.  [waitForEmailMatching] forwards it to the wait
    operation of the service, and returns the message of the first preview
    when the service resolves both requests. *)
Theorem empty_query_translates_to_no_rule (mailslurp : MailSlurpClient.t)
    (sec : option Z) (s : State) (inbox : Inbox.t) :
  MailSlurp.currentMailbox (this s) = Some inbox ->
  let r := MailSlurpClient.waitForMatchingEmails (MatchOptions.mk []) (Some 1%Z)
             (Inbox.id inbox) (JS.or_else (to_millis sec) (default_timeout s)) in
  matchEmailBy [] = MatchOptions.mk [] /\
  requests_next s r (snd (waitForEmailMatching mailslurp [] sec s)) /\
  forall p others email,
    mailslurp (calls s) r = Ok (p :: others) ->
    mailslurp (calls s ++ [r]) (MailSlurpClient.getEmail (EmailPreview.id p)) = Ok email ->
    fst (waitForEmailMatching mailslurp [] sec s) = Ok email.
Proof.
  intros H r. split; [reflexivity|]. split.
  - apply (waitForEmailMatching_requests mailslurp [] sec s inbox H).
  - intros p others email Hr Hg.
    destruct (waitForEmailMatching_first_preview mailslurp [] sec s inbox p others H Hr)
      as [Hfst _].
    rewrite Hfst. exact Hg.
Qed.

Lemma empty_query_translates_to_no_rule_witness :
  matchEmailBy [] = MatchOptions.mk [] /\
  requests_next test_opened
    (MailSlurpClient.waitForMatchingEmails (MatchOptions.mk []) (Some 1%Z) "123" 10000)
    (snd (waitForEmailMatching test_client [] None test_opened)) /\
  forall p others email,
    test_client (calls test_opened)
      (MailSlurpClient.waitForMatchingEmails (MatchOptions.mk []) (Some 1%Z) "123" 10000)
    = Ok (p :: others) ->
    test_client
      (calls test_opened
       ++ [MailSlurpClient.waitForMatchingEmails (MatchOptions.mk []) (Some 1%Z) "123" 10000])
      (MailSlurpClient.getEmail (EmailPreview.id p)) = Ok email ->
    fst (waitForEmailMatching test_client [] None test_opened) = Ok email.
Proof.
  apply (empty_query_translates_to_no_rule test_client None test_opened test_inbox).
  reflexivity.
Defined.

(** * The timeout of the wait operations *)


(** Beyond 53 bits the product is rounded: [1000 * (2^53 - 1)] is not a
    double. *)
Example mul_rounds_large_products :
  JS.mul 1000 9007199254740991 = 9007199254740990976%Z.
Proof. reflexivity. Qed.





(** * The first preview *)

(** C10.  [waitForEmailMatching] asks the service for one matching preview.
    When the service resolves with an empty array the operation fails with
    the TypeError of reading [id] of the missing first element, having made
    no further request; otherwise it fetches the message of the first
    preview, whatever else the array holds, and settles as that request. *)
Theorem waitForEmailMatching_reads_first_preview (mailslurp : MailSlurpClient.t)
    (query : Query) (sec : option Z) (s : State) (inbox : Inbox.t) :
  MailSlurp.currentMailbox (this s) = Some inbox ->
  let r := MailSlurpClient.waitForMatchingEmails (matchEmailBy query) (Some 1%Z)
             (Inbox.id inbox) (JS.or_else (to_millis sec) (default_timeout s)) in
  requests_next s r (snd (waitForEmailMatching mailslurp query sec s)) /\
  (mailslurp (calls s) r = Ok [] ->
   waitForEmailMatching mailslurp query sec s
   = (Throw (TypeError "id"), mkState (this s) (calls s ++ [r]) (console s))) /\
  (forall p others,
     mailslurp (calls s) r = Ok (p :: others) ->
     fst (waitForEmailMatching mailslurp query sec s)
     = mailslurp (calls s ++ [r]) (MailSlurpClient.getEmail (EmailPreview.id p)) /\
     calls (snd (waitForEmailMatching mailslurp query sec s))
     = calls s ++ [r; MailSlurpClient.getEmail (EmailPreview.id p)]).
Proof.
  intros H r. split; [|split].
  - apply waitForEmailMatching_requests, H.
  - apply waitForEmailMatching_no_preview, H.
  - intros p others Hr.
    apply (waitForEmailMatching_first_preview mailslurp query sec s inbox p others H Hr).
Qed.

Lemma waitForEmailMatching_reads_first_preview_witness :
  waitForEmailMatching silent_client [("subject", "Hello")] None test_opened
  = (Throw (TypeError "id"),
     mkState (this test_opened)
       [MailSlurpClient.waitForMatchingEmails
          (MatchOptions.mk [MatchOption.mk "SUBJECT" "Hello" CONTAIN]) (Some 1%Z) "123" 10000]
       []).
Proof.
  apply (waitForEmailMatching_reads_first_preview silent_client [("subject", "Hello")]
           None test_opened test_inbox eq_refl).
  reflexivity.
Defined.

(** * What the operations do to the fixture state *)

Lemma preserves_ret {A : Type} (a : A) : preserves_this (ret a).
Proof. intros s. reflexivity. Qed.

Lemma preserves_throw {A : Type} (e : error) : preserves_this (@throw A e).
Proof. intros s. reflexivity. Qed.

Lemma preserves_await {A : Type} (p : Pending A) : preserves_this (await p).
Proof. intros s. reflexivity. Qed.

Lemma preserves_debug (msg : string) : preserves_this (debug msg).
Proof. intros s. reflexivity. Qed.

Lemma preserves_get_this : preserves_this get_this.
Proof. intros s. reflexivity. Qed.

Lemma preserves_prop {X A : Type} (o : option X) (name : string) (f : X -> A) :
  preserves_this (prop o name f).
Proof. intros s. destruct o; reflexivity. Qed.

Lemma preserves_request (mailslurp : MailSlurpClient.t) (r : MailSlurpClient.request) :
  preserves_this (request mailslurp r).
Proof. intros s. reflexivity. Qed.

Lemma preserves_bind {A B : Type} (c : M A) (k : A -> M B) :
  preserves_this c -> (forall a, preserves_this (k a)) -> preserves_this (bind c k).
Proof.
  intros Hc Hk s. unfold bind. specialize (Hc s).
  destruct (c s) as [[a|e] s']; simpl in *.
  - now rewrite Hk.
  - exact Hc.
Qed.

Lemma preserves_Array_map {A B : Type} (f : A -> M B) (l : list A) :
  (forall a, preserves_this (f a)) -> preserves_this (Array_map f l).
Proof.
  intros Hf. induction l as [|a rest IH]; simpl.
  - apply preserves_ret.
  - apply preserves_bind; [apply Hf|]. intros b.
    apply preserves_bind; [apply IH|]. intros bs. apply preserves_ret.
Qed.

Create HintDb frame.
#[local] Hint Resolve preserves_ret preserves_throw preserves_await preserves_debug
  preserves_get_this preserves_prop preserves_request : frame.

Ltac frame :=
  repeat first
    [ apply preserves_bind; [|intros ?]
    | apply preserves_Array_map; intros ?
    | solve [auto with frame] ].

Lemma grabEmailsMatching_preserves (mailslurp : MailSlurpClient.t) (query : Query)
    (num : option Z) :
  preserves_this (grabEmailsMatching mailslurp query num).
Proof. unfold grabEmailsMatching, call, currentMailbox_id. frame. Qed.

Lemma grabAllEmailsFromMailbox_preserves (mailslurp : MailSlurpClient.t) :
  preserves_this (grabAllEmailsFromMailbox mailslurp).
Proof. unfold grabAllEmailsFromMailbox, call, currentMailbox_id. frame. Qed.

(** C5.  A wait operation that returns a message leaves that message in
    [currentEmail]; the two grab operations leave every field of the
    helper ([mailboxes], [currentMailbox], [currentEmail]) as it was,
    whether they return or fail. *)
Theorem wait_opens_grab_does_not (mailslurp : MailSlurpClient.t) (s : State)
    (query : Query) (number : Z) (sec num : option Z) :
  (forall email,
     fst (waitForLatestEmail mailslurp sec s) = Ok email ->
     MailSlurp.currentEmail (this (snd (waitForLatestEmail mailslurp sec s))) = Some email) /\
  (forall email,
     fst (waitForEmailMatching mailslurp query sec s) = Ok email ->
     MailSlurp.currentEmail (this (snd (waitForEmailMatching mailslurp query sec s)))
     = Some email) /\
  (forall email,
     fst (waitForNthEmail mailslurp number sec s) = Ok email ->
     MailSlurp.currentEmail (this (snd (waitForNthEmail mailslurp number sec s)))
     = Some email) /\
  this (snd (grabEmailsMatching mailslurp query num s)) = this s /\
  this (snd (grabAllEmailsFromMailbox mailslurp s)) = this s.
Proof.
  split; [|split; [|split; [|split]]].
  - unfold waitForLatestEmail. unfold_M.
    split_cases; intros email E; simpl in *; congruence.
  - unfold waitForEmailMatching. unfold_M.
    split_cases; intros email E; simpl in *; congruence.
  - unfold waitForNthEmail. unfold_M.
    split_cases; intros email E; simpl in *; congruence.
  - apply grabEmailsMatching_preserves.
  - apply grabAllEmailsFromMailbox_preserves.
Qed.

Lemma wait_opens_grab_does_not_witness :
  MailSlurp.currentEmail (this (snd (waitForLatestEmail test_client (Some 50%Z) test_opened)))
  = Some test_email /\
  MailSlurp.currentEmail
    (this (snd (waitForEmailMatching test_client [("subject", "Hello")] None test_opened)))
  = Some test_email /\
  MailSlurp.currentEmail (this (snd (waitForNthEmail test_client 2 (Some 50%Z) test_opened)))
  = Some test_email /\
  this (snd (grabEmailsMatching test_client [("subject", "Hello")] (Some 2%Z) test_opened))
  = this test_opened.
Proof.
  pose proof (wait_opens_grab_does_not test_client test_opened [("subject", "Hello")] 2
                (Some 50%Z) (Some 2%Z)) as (L & _ & N & G & _).
  pose proof (wait_opens_grab_does_not test_client test_opened [("subject", "Hello")] 2
                None (Some 2%Z)) as (_ & E & _).
  split; [apply L; reflexivity|].
  split; [apply E; reflexivity|].
  split; [apply N; reflexivity | exact G].
Defined.

(** * Teardown *)

Lemma first_rejection_none {A : Type} (ps : list (Pending A)) :
  first_rejection ps = None -> forall t e, ~ In (t, Throw e) ps.
Proof.
  induction ps as [|[t0 [a|e0]] rest IH]; simpl; intros H t e Hin.
  - exact Hin.
  - destruct Hin as [Hin|Hin]; [discriminate | exact (IH H t e Hin)].
  - destruct (first_rejection rest) as [[t' e']|]; [|discriminate].
    destruct (t' <? t0)%nat; discriminate.
Qed.

(** The rejection [Promise.all] reports is one of the rejections, and no
    other rejection is earlier. *)
Lemma first_rejection_least {A : Type} (ps : list (Pending A)) (t : nat) (e : error) :
  first_rejection ps = Some (t, e) ->
  In (t, Throw e) ps /\ forall t' e', In (t', Throw e') ps -> t <= t'.
Proof.
  revert t e. induction ps as [|[t0 [a|e0]] rest IH]; simpl; intros t e H.
  - discriminate.
  - destruct (IH t e H) as [Hin Hmin]. split; [now right|].
    intros t' e' [Hin'|Hin']; [discriminate | exact (Hmin t' e' Hin')].
  - destruct (first_rejection rest) as [[t1 e1]|] eqn:Hrest.
    + destruct (IH t1 e1 eq_refl) as [Hin Hmin].
      destruct (Nat.ltb_spec t1 t0) as [Hlt|Hge]; inversion H; subst.
      * split; [now right|].
        intros t' e' [Hin'|Hin'].
        -- inversion Hin'; subst. lia.
        -- exact (Hmin t' e' Hin').
      * split; [now left|].
        intros t' e' [Hin'|Hin'].
        -- inversion Hin'; subst. lia.
        -- pose proof (Hmin t' e' Hin'). lia.
    + inversion H; subst. split; [now left|].
      intros t' e' [Hin'|Hin'].
      * inversion Hin'; subst. lia.
      * exfalso. exact (first_rejection_none rest Hrest t' e' Hin').
Qed.

Lemma first_rejection_first {A : Type} (ps : list (Pending A)) (t : nat) (e : error) :
  first_rejection ps = Some (t, e) -> rejected_first ps e.
Proof. intros H. exists t. now apply first_rejection_least. Qed.

Lemma first_rejection_resolved {A : Type} (ps : list (Pending A)) :
  Forall resolved (map snd ps) -> first_rejection ps = None.
Proof.
  induction ps as [|[t0 p0] rest IH]; simpl; intros H; [reflexivity|].
  inversion H as [|? ? Hp Hrest]; subst. destruct Hp as [a Ha].
  simpl in Ha. subst p0. now apply IH.
Qed.

Lemma first_rejection_rejected {A : Type} (ps : list (Pending A)) :
  Exists rejected (map snd ps) -> exists t e, first_rejection ps = Some (t, e).
Proof.
  induction ps as [|[t0 p0] rest IH]; simpl; intros H; [inversion H|].
  destruct p0 as [a|e0].
  - inversion H as [? ? Hp|? ? Hrest]; subst; [|now apply IH].
    destruct Hp as [e He]. discriminate He.
  - destruct (first_rejection rest) as [[t1 e1]|].
    + destruct (t1 <? t0)%nat; eexists; eexists; reflexivity.
    + eexists; eexists; reflexivity.
Qed.

Lemma resolved_values_all {A : Type} (ps : list (Pending A)) :
  first_rejection ps = None ->
  Forall2 (fun p a => snd p = Ok a) ps (resolved_values ps).
Proof.
  induction ps as [|[t0 [a|e0]] rest IH]; simpl; intros H.
  - constructor.
  - constructor; [reflexivity | now apply IH].
  - destruct (first_rejection rest) as [[t1 e1]|]; [|discriminate].
    destruct (t1 <? t0)%nat; discriminate.
Qed.

(** When [Promise.all] resolves, its values are those of the promises, one
    per promise in the order of the array. *)
Lemma Promise_all_values {A : Type} (ps : list (Pending A)) (l : list A) :
  snd (Promise_all ps) = Ok l -> Forall2 (fun p a => snd p = Ok a) ps l.
Proof.
  unfold Promise_all. destruct (first_rejection ps) as [[t e]|] eqn:H; simpl; intros E.
  - discriminate.
  - inversion E; subst. now apply resolved_values_all.
Qed.

(** When [Promise.all] rejects, its reason is that of the rejection that
    happened first. *)
Lemma Promise_all_reason {A : Type} (ps : list (Pending A)) (e : error) :
  snd (Promise_all ps) = Throw e -> rejected_first ps e.
Proof.
  unfold Promise_all. destruct (first_rejection ps) as [[t e']|] eqn:H; simpl; intros E.
  - inversion E; subst. exact (first_rejection_first ps t e H).
  - discriminate.
Qed.

Lemma Promise_all_resolved {A : Type} (ps : list (Pending A)) :
  Forall resolved (map snd ps) -> resolved (snd (Promise_all ps)).
Proof.
  intros H. unfold Promise_all. rewrite (first_rejection_resolved ps H).
  now exists (resolved_values ps).
Qed.

Lemma Promise_all_rejected {A : Type} (ps : list (Pending A)) :
  Exists rejected (map snd ps) -> rejected (snd (Promise_all ps)).
Proof.
  intros H. unfold Promise_all.
  destruct (first_rejection_rejected ps H) as (t & e & ->). now exists e.
Qed.

Lemma state_eta (s : State) : mkState (this s) (calls s) (console s) = s.
Proof. now destruct s. Qed.

Lemma delete_pending_promises (mailslurp : MailSlurpClient.t)
    (hist : list MailSlurpClient.request) (ms : list Inbox.t) :
  map snd (delete_pending mailslurp hist ms) = delete_promises mailslurp hist ms.
Proof.
  revert hist. induction ms as [|m rest IH]; intros hist; simpl; [reflexivity|].
  now rewrite IH.
Qed.

(** Every deletion in flight is the deletion of a recorded mailbox, asked
    after the deletions of the mailboxes recorded before it. *)
Lemma delete_pending_In (mailslurp : MailSlurpClient.t)
    (hist : list MailSlurpClient.request) (ms : list Inbox.t) (t : nat) (p : Promise unit) :
  In (t, p) (delete_pending mailslurp hist ms) ->
  exists pre m post,
    ms = pre ++ m :: post /\
    p = mailslurp (hist ++ map delete_request pre) (delete_request m).
Proof.
  revert hist. induction ms as [|m rest IH]; intros hist; simpl; [contradiction|].
  intros [E|Hin].
  - inversion E; subst. exists [], m, rest. simpl. now rewrite app_nil_r.
  - destruct (IH _ Hin) as (pre & m' & post & -> & ->).
    exists (m :: pre), m', post. simpl. now rewrite <- app_assoc.
Qed.

(** The fan-out of [_after]: every deletion is requested, in the order of
    the array, and none of the promises is looked at meanwhile. *)
Lemma Array_map_deleteInbox (mailslurp : MailSlurpClient.t) (ms : list Inbox.t) (s : State) :
  Array_map (B := Pending unit)
    (fun m => request mailslurp (MailSlurpClient.deleteInbox (Inbox.id m))) ms s
  = (Ok (delete_pending mailslurp (calls s) ms),
     mkState (this s) (calls s ++ map delete_request ms) (console s)).
Proof.
  revert s. induction ms as [|m rest IH]; intros s; simpl.
  - unfold ret. now rewrite app_nil_r, state_eta.
  - unfold bind at 1. unfold request at 1. unfold bind at 1.
    rewrite IH. simpl. unfold ret. fold (delete_request m).
    now rewrite <- app_assoc.
Qed.

Lemma _after_run (mailslurp : MailSlurpClient.t) (s : State) (ms : list Inbox.t) :
  MailSlurp.mailboxes (this s) = Some ms -> ms <> [] ->
  let s1 := mkState (this s) (calls s ++ map delete_request ms) (console s) in
  _after mailslurp s =
  match snd (Promise_all (delete_pending mailslurp (calls s) ms)) with
  | Throw e => (Throw e, s1)
  | Ok _ =>
      (Ok tt,
       mkState (MailSlurp.mk (MailSlurp.config (this s)) (Some []) None None)
         (calls s1)
         (if Config.debug (MailSlurp.config (this s)) then
            console s ++ [("Removed " ++ JS.string_of_nat (length ms) ++ " mailboxes")%string]
          else console s))
  end.
Proof.
  intros H Hne s1. unfold _after. unfold bind at 1. unfold get_this at 1.
  rewrite H. destruct ms as [|m rest]; [contradiction|].
  unfold bind at 1. rewrite Array_map_deleteInbox. fold s1.
  unfold bind at 1. unfold await.
  destruct (snd (Promise_all (delete_pending mailslurp (calls s) (m :: rest))));
    [|reflexivity].
  unfold debug, update_this, bind, ret.
  destruct (Config.debug (MailSlurp.config (this s))); reflexivity.
Qed.

Lemma _after_requests (mailslurp : MailSlurpClient.t) (s : State) (ms : list Inbox.t) :
  MailSlurp.mailboxes (this s) = Some ms ->
  calls (snd (_after mailslurp s)) = calls s ++ map delete_request ms.
Proof.
  intros H. destruct ms as [|m rest].
  - unfold _after. unfold_M. rewrite H. simpl. now rewrite app_nil_r.
  - rewrite (_after_run mailslurp s (m :: rest) H) by discriminate.
    destruct (snd (Promise_all _)); reflexivity.
Qed.

(** What a failure of [_after] is: the rejection of the deletion of a
    recorded mailbox, no other deletion being rejected before it; the
    fields of the helper are then what they were. *)
Lemma _after_failure (mailslurp : MailSlurpClient.t) (s : State) (ms : list Inbox.t)
    (e : error) :
  MailSlurp.mailboxes (this s) = Some ms ->
  fst (_after mailslurp s) = Throw e ->
  rejected_first (delete_pending mailslurp (calls s) ms) e /\
  (exists pre m post,
     ms = pre ++ m :: post /\
     mailslurp (calls s ++ map delete_request pre) (delete_request m) = Throw e) /\
  this (snd (_after mailslurp s)) = this s.
Proof.
  intros H Hfail.
  assert (Hne : ms <> []).
  { intros ->. unfold _after in Hfail. unfold_M. rewrite H in Hfail. discriminate. }
  rewrite (_after_run mailslurp s ms H Hne) in *.
  destruct (snd (Promise_all (delete_pending mailslurp (calls s) ms))) as [l|e0] eqn:E;
    [discriminate|].
  cbn [fst snd this] in *. inversion Hfail; subst e0.
  pose proof (Promise_all_reason _ _ E) as First.
  split; [exact First|]. split; [|reflexivity].
  destruct First as (t & Hin & _).
  destruct (delete_pending_In mailslurp (calls s) ms t _ Hin) as (pre & m & post & Hms & Hp).
  exists pre, m, post. now split.
Qed.

(** C3, as it fails.  The service refuses to delete the second of three
    recorded mailboxes: three deletions are requested, [_after] fails with
    the rejection, and the fixture state is what it was, not empty. *)
Lemma failed_delete_keeps_fixture_state :
  calls (snd (_after refusing_client three_mailboxes))
  = [MailSlurpClient.deleteInbox "a"; MailSlurpClient.deleteInbox "b";
     MailSlurpClient.deleteInbox "c"] /\
  fst (_after refusing_client three_mailboxes) = Throw (Rejection "inbox not found") /\
  this (snd (_after refusing_client three_mailboxes)) = this three_mailboxes /\
  ~ fixture_empty (this (snd (_after refusing_client three_mailboxes))).
Proof.
  repeat split. intros (E & _). discriminate E.
Qed.

(** Of two rejected deletions, [_after] fails with the one rejected first,
    here the second of the array. *)
Example _after_reports_the_first_rejection :
  fst (_after racing_client three_mailboxes) = Throw (Rejection "fast").
Proof. reflexivity. Qed.

(** C3, amended.  [_after] requests the deletion of every recorded mailbox,
    one request per mailbox in the order of the record, whether or not a
    deletion is refused.  With at least one recorded mailbox: when every
    deletion resolves, [_after] returns and the fixture state is empty;
    when a deletion is rejected, [_after] fails, and whenever it fails it
    fails with the rejection the service gave to the deletion of one of the
    recorded mailboxes, the one rejected first, and the fixture state is
    left as it was.  With no recorded mailbox it returns at once and
    changes nothing. *)
Theorem _after_deletes_every_mailbox (mailslurp : MailSlurpClient.t) (s : State)
    (ms : list Inbox.t) :
  MailSlurp.mailboxes (this s) = Some ms ->
  calls (snd (_after mailslurp s)) = calls s ++ map delete_request ms /\
  (ms <> [] ->
   Forall resolved (delete_promises mailslurp (calls s) ms) ->
   fst (_after mailslurp s) = Ok tt /\ fixture_empty (this (snd (_after mailslurp s)))) /\
  (Exists rejected (delete_promises mailslurp (calls s) ms) ->
   rejected (fst (_after mailslurp s)) /\ this (snd (_after mailslurp s)) = this s) /\
  (forall e,
     fst (_after mailslurp s) = Throw e ->
     rejected_first (delete_pending mailslurp (calls s) ms) e /\
     (exists pre m post,
        ms = pre ++ m :: post /\
        mailslurp (calls s ++ map delete_request pre) (delete_request m) = Throw e) /\
     this (snd (_after mailslurp s)) = this s) /\
  (ms = [] -> _after mailslurp s = (Ok tt, s)).
Proof.
  intros H. split; [apply _after_requests, H|]. split; [|split; [|split]].
  - intros Hne Hall. rewrite (_after_run mailslurp s ms H Hne).
    rewrite <- delete_pending_promises in Hall.
    destruct (Promise_all_resolved _ Hall) as [l ->]. simpl.
    repeat split.
  - intros Hex.
    assert (Hne : ms <> []) by (intros ->; inversion Hex).
    rewrite (_after_run mailslurp s ms H Hne).
    rewrite <- delete_pending_promises in Hex.
    destruct (Promise_all_rejected _ Hex) as [e ->]. simpl.
    split; [now exists e | reflexivity].
  - intros e Hfail. exact (_after_failure mailslurp s ms e H Hfail).
  - intros ->. unfold _after. unfold_M. now rewrite H.
Qed.

Lemma _after_deletes_every_mailbox_witness :
  calls (snd (_after test_client three_mailboxes))
  = [MailSlurpClient.deleteInbox "a"; MailSlurpClient.deleteInbox "b";
     MailSlurpClient.deleteInbox "c"] /\
  fst (_after test_client three_mailboxes) = Ok tt /\
  fixture_empty (this (snd (_after test_client three_mailboxes))) /\
  rejected (fst (_after refusing_client three_mailboxes)) /\
  (exists pre m post,
     [Inbox.mk "a" "a@test.de"; Inbox.mk "b" "b@test.de"; Inbox.mk "c" "c@test.de"]
     = pre ++ m :: post /\
     racing_client (calls three_mailboxes ++ map delete_request pre) (delete_request m)
     = Throw (Rejection "fast")).
Proof.
  pose proof (_after_deletes_every_mailbox test_client three_mailboxes _ eq_refl)
    as (C & R & _).
  pose proof (_after_deletes_every_mailbox refusing_client three_mailboxes _ eq_refl)
    as (_ & _ & X & _).
  pose proof (_after_deletes_every_mailbox racing_client three_mailboxes _ eq_refl)
    as (_ & _ & _ & F & _).
  split; [exact C|].
  assert (A : Forall resolved
                (delete_promises test_client (calls three_mailboxes)
                   [Inbox.mk "a" "a@test.de"; Inbox.mk "b" "b@test.de";
                    Inbox.mk "c" "c@test.de"])).
  { repeat constructor; now exists tt. }
  destruct (R ltac:(discriminate) A) as [Hok Hempty].
  split; [exact Hok|]. split; [exact Hempty|]. split.
  - apply X. apply Exists_cons_tl, Exists_cons_hd. now exists (Rejection "inbox not found").
  - exact (proj1 (proj2 (F (Rejection "fast") eq_refl))).
Defined.

(** * Content assertions without an open e-mail *)

Lemma _hasCurrentEmail_none (s : State) :
  MailSlurp.currentEmail (this s) = None ->
  _hasCurrentEmail s = (Throw NoOpenMessage, s).
Proof. intros H. unfold _hasCurrentEmail. unfold_M. now rewrite H. Qed.

Lemma guarded_by_hasCurrentEmail {A : Type} (k : M A) (s : State) :
  MailSlurp.currentEmail (this s) = None ->
  bind _hasCurrentEmail (fun _ => k) s = (Throw NoOpenMessage, s).
Proof. intros H. unfold bind. now rewrite (_hasCurrentEmail_none s H). Qed.

(** C6.  Without an open e-mail each of the nine content assertions throws
    the error [No email opened...] and leaves the state as it is: no field
    of a message is read (a read of a field of [null] would be a TypeError)
    and no request is made. *)
Theorem assertions_need_an_open_email (mailslurp : MailSlurpClient.t)
    (RegExp : Type) (RegExp_new : string -> option RegExp)
    (String_match : string -> RegExp -> bool)
    (s : State) (text nameRegExp : string) (number : Z) :
  MailSlurp.currentEmail (this s) = None ->
  seeInEmailSubject text s = (Throw NoOpenMessage, s) /\
  dontSeeInEmailSubject text s = (Throw NoOpenMessage, s) /\
  seeInEmailBody text s = (Throw NoOpenMessage, s) /\
  dontSeeInEmailBody text s = (Throw NoOpenMessage, s) /\
  seeEmailIsFrom text s = (Throw NoOpenMessage, s) /\
  seeEmailSubjectEquals text s = (Throw NoOpenMessage, s) /\
  dontSeeEmailSubjectEquals text s = (Throw NoOpenMessage, s) /\
  seeNumberOfEmailAttachments number s = (Throw NoOpenMessage, s) /\
  seeEmailAttachment mailslurp RegExp RegExp_new String_match nameRegExp s
  = (Throw NoOpenMessage, s).
Proof.
  intros H. repeat split; apply guarded_by_hasCurrentEmail, H.
Qed.

Lemma assertions_need_an_open_email_witness :
  seeInEmailSubject "Hello" test_opened = (Throw NoOpenMessage, test_opened) /\
  seeEmailAttachment test_client string literal_RegExp_new literal_String_match
    "README" test_opened
  = (Throw NoOpenMessage, test_opened).
Proof.
  pose proof (assertions_need_an_open_email test_client string literal_RegExp_new
                literal_String_match test_opened "Hello" "README" 1 eq_refl)
    as (S & _ & _ & _ & _ & _ & _ & _ & A).
  exact (conj S A).
Defined.

(** * Using an existing mailbox *)

(** C7.  Without an id, or with the empty id, [haveExistingMailbox] throws
    and makes no request.  With an id it requests the inbox from the
    service; when the service resolves (the fixture being initialised by
    [_before]), the inbox is appended to [mailboxes], becomes the current
    mailbox and is returned, and the next [_after] requests its deletion. *)
Theorem haveExistingMailbox_records_the_inbox (mailslurp : MailSlurpClient.t) (s : State) :
  haveExistingMailbox mailslurp None s = (Throw MissingParameter, s) /\
  haveExistingMailbox mailslurp (Some EmptyString) s = (Throw MissingParameter, s) /\
  (forall mailboxId : string,
     mailboxId <> EmptyString ->
     requests_next s (MailSlurpClient.getInbox mailboxId)
       (snd (haveExistingMailbox mailslurp (Some mailboxId) s))) /\
  forall (mailboxId : string) (inbox : Inbox.t) (recorded : list Inbox.t),
    mailboxId <> EmptyString ->
    MailSlurp.mailboxes (this s) = Some recorded ->
    mailslurp (calls s) (MailSlurpClient.getInbox mailboxId) = Ok inbox ->
    let s' := snd (haveExistingMailbox mailslurp (Some mailboxId) s) in
    fst (haveExistingMailbox mailslurp (Some mailboxId) s) = Ok inbox /\
    calls s' = calls s ++ [MailSlurpClient.getInbox mailboxId] /\
    MailSlurp.mailboxes (this s') = Some (recorded ++ [inbox]) /\
    MailSlurp.currentMailbox (this s') = Some inbox /\
    MailSlurp.currentEmail (this s') = MailSlurp.currentEmail (this s) /\
    In (MailSlurpClient.deleteInbox (Inbox.id inbox)) (calls (snd (_after mailslurp s'))).
Proof.
  split; [reflexivity|]. split; [reflexivity|]. split.
  { intros [|c rest] Hid; [contradiction|].
    unfold requests_next, haveExistingMailbox. unfold_M.
    split_cases; now exists []. }
  intros mailboxId inbox recorded Hid Hrec Hget s'.
  assert (E : haveExistingMailbox mailslurp (Some mailboxId) s
              = (Ok inbox,
                 mkState (MailSlurp.set_currentMailbox (Some inbox)
                            (MailSlurp.set_mailboxes (Some (recorded ++ [inbox])) (this s)))
                   (calls s ++ [MailSlurpClient.getInbox mailboxId]) (console s))).
  { destruct mailboxId as [|c rest]; [contradiction|].
    unfold haveExistingMailbox. unfold_M. simpl. rewrite Hget. simpl.
    now rewrite Hrec. }
  subst s'. rewrite E. simpl. repeat split.
  erewrite _after_requests by reflexivity.
  rewrite map_app. simpl. rewrite !in_app_iff. right. right. now left.
Qed.

Lemma haveExistingMailbox_records_the_inbox_witness :
  fst (haveExistingMailbox test_client (Some "123") three_mailboxes) = Ok test_inbox /\
  MailSlurp.currentMailbox
    (this (snd (haveExistingMailbox test_client (Some "123") three_mailboxes)))
  = Some test_inbox /\
  In (MailSlurpClient.deleteInbox "123")
     (calls (snd (_after test_client
                    (snd (haveExistingMailbox test_client (Some "123") three_mailboxes))))).
Proof.
  pose proof (haveExistingMailbox_records_the_inbox test_client three_mailboxes)
    as (_ & _ & _ & R).
  destruct (R "123" test_inbox _ ltac:(discriminate) eq_refl eq_refl)
    as (F & _ & _ & C & _ & D).
  exact (conj F (conj C D)).
Defined.

(** * Looking for an attachment *)

Lemma string_app_assoc (a b c : string) : ((a ++ b) ++ c = a ++ b ++ c)%string.
Proof. induction a as [|x a IH]; simpl; congruence. Qed.

Lemma string_app_empty (a : string) : (a ++ EmptyString)%string = a.
Proof. induction a as [|x a IH]; simpl; congruence. Qed.

Lemma substring_of_refl (s : string) : substring_of s s.
Proof. exists EmptyString, EmptyString. simpl. now rewrite string_app_empty. Qed.

Lemma substring_of_app_l (sub s x : string) :
  substring_of sub s -> substring_of sub (x ++ s)%string.
Proof.
  intros (pre & post & ->). exists (x ++ pre)%string, post. now rewrite string_app_assoc.
Qed.

Lemma substring_of_app_r (sub s y : string) :
  substring_of sub s -> substring_of sub (s ++ y)%string.
Proof.
  intros (pre & post & ->). exists pre, (post ++ y)%string. now rewrite !string_app_assoc.
Qed.

Lemma prefix_append (sub post : string) : String.prefix sub (sub ++ post)%string = true.
Proof.
  induction sub as [|c sub IH]; simpl.
  - now destruct post.
  - destruct (ascii_dec c c); [exact IH | contradiction].
Qed.

Lemma includes_unfold (s sub : string) :
  JS.includes s sub
  = String.prefix sub s
    || match s with
       | EmptyString => false
       | String _ rest => JS.includes rest sub
       end.
Proof. now destruct s. Qed.

(** [includes] finds every occurrence. *)
Lemma substring_of_includes (sub s : string) :
  substring_of sub s -> JS.includes s sub = true.
Proof.
  intros (pre & post & ->). induction pre as [|c pre IH].
  - cbn [append]. now rewrite includes_unfold, prefix_append.
  - cbn [append]. rewrite includes_unfold, IH. apply orb_true_r.
Qed.

Lemma join_substring (sep n : string) (l : list string) :
  In n l -> substring_of n (JS.join sep l).
Proof.
  induction l as [|x rest IH]; intros Hin; [contradiction|].
  destruct Hin as [->|Hin].
  - destruct rest as [|y rest'].
    + apply substring_of_refl.
    + cbn [JS.join]. apply substring_of_app_r, substring_of_refl.
  - destruct rest as [|y rest']; [contradiction|].
    change (JS.join sep (x :: y :: rest'))
      with (x ++ sep ++ JS.join sep (y :: rest'))%string.
    now apply substring_of_app_l, substring_of_app_l, IH.
Qed.

(** The text of the failure names the subject and every name found. *)
Lemma attachment_not_found_subject (nameRegExp subject : string) (found : list string) :
  substring_of subject (attachment_not_found nameRegExp subject found).
Proof.
  unfold attachment_not_found.
  do 6 apply substring_of_app_l. apply substring_of_app_r, substring_of_refl.
Qed.

Lemma attachment_not_found_names (nameRegExp subject n : string) (found : list string) :
  In n found -> substring_of n (attachment_not_found nameRegExp subject found).
Proof.
  intros Hin. unfold attachment_not_found.
  destruct found as [|x rest]; [contradiction|].
  cbn [length Nat.ltb Nat.leb].
  do 11 apply substring_of_app_l. apply substring_of_app_r.
  now apply join_substring.
Qed.

Lemma attachment_not_found_truthy (nameRegExp subject : string) (found : list string)
    (s : State) :
  expect_toBeFalsy (attachment_not_found nameRegExp subject found) s
  = (Throw (AssertionError
              (Expect.mk "toBeFalsy" false
                 (Expect.Str (attachment_not_found nameRegExp subject found)) None)),
     s).
Proof. reflexivity. Qed.

Lemma call_run (mailslurp : MailSlurpClient.t) (r : MailSlurpClient.request) (s : State) :
  call mailslurp r s
  = (mailslurp (calls s) r, mkState (this s) (calls s ++ [r]) (console s)).
Proof. reflexivity. Qed.

Section Attachments.

Variable mailslurp : MailSlurpClient.t.
Variable RegExp : Type.
Variable RegExp_new : string -> option RegExp.
Variable String_match : string -> RegExp -> bool.
Variables nameRegExp emailId : string.
Variable regexp : RegExp.
Hypothesis valid_pattern : RegExp_new nameRegExp = Some regexp.


(** One turn of the loop on an attachment whose metadata resolves. *)
Lemma loop_step (a : string) (rest found : list string) (s : State)
    (meta : AttachmentMetaData.t) :
  mailslurp (calls s) (metadata_request emailId a) = Ok meta ->
  seeEmailAttachment_loop mailslurp RegExp RegExp_new String_match nameRegExp emailId
    (a :: rest) found s
  = if String_match (AttachmentMetaData.name meta) regexp
    then (Ok (true, found), metadata_asked emailId s [a])
    else seeEmailAttachment_loop mailslurp RegExp RegExp_new String_match nameRegExp emailId
    rest (found ++ [AttachmentMetaData.name meta]) (metadata_asked emailId s [a]).
Proof.
  intros Hmeta. cbn [seeEmailAttachment_loop].
  unfold bind at 1. rewrite call_run. fold (metadata_request emailId a).
  rewrite Hmeta, valid_pattern.
  now destruct (String_match (AttachmentMetaData.name meta) regexp).
Qed.

Lemma asked_asked (s : State) (a : string) (ids : list string) :
  metadata_asked emailId (metadata_asked emailId s [a]) ids = metadata_asked emailId s (a :: ids).
Proof. unfold metadata_asked. simpl. now rewrite <- app_assoc. Qed.

(** No name matches: every metadata is requested and every name kept. *)
Lemma loop_no_match (ids names found : list string) (s : State) :
  resolves_names mailslurp emailId (calls s) ids names ->
  Forall (fun name => String_match name regexp = false) names ->
  seeEmailAttachment_loop mailslurp RegExp RegExp_new String_match nameRegExp emailId
    ids found s = (Ok (false, found ++ names), metadata_asked emailId s ids).
Proof.
  revert names found s.
  induction ids as [|a ids IH]; intros [|n names] found s Hres Hall;
    try contradiction.
  - unfold metadata_asked. simpl. unfold ret. now rewrite !app_nil_r, state_eta.
  - destruct Hres as [(meta & Hmeta & <-) Hres].
    inversion Hall as [|? ? Hn Hrest]; subst.
    rewrite (loop_step a ids found s meta Hmeta), Hn.
    rewrite (IH names _ (metadata_asked emailId s [a]) Hres Hrest).
    now rewrite asked_asked, <- app_assoc.
Qed.

(** The first matching name ends the loop: the attachments after it are
    not looked at. *)
Lemma loop_match (pre names : list string) (a n : string) (post found : list string)
    (s : State) :
  resolves_names mailslurp emailId (calls s) (pre ++ [a]) (names ++ [n]) ->
  Forall (fun name => String_match name regexp = false) names ->
  String_match n regexp = true ->
  seeEmailAttachment_loop mailslurp RegExp RegExp_new String_match nameRegExp emailId
    (pre ++ a :: post) found s = (Ok (true, found ++ names), metadata_asked emailId s (pre ++ [a])).
Proof.
  revert names found s.
  induction pre as [|p pre IH]; intros [|m names] found s Hres Hall Hn.
  - destruct Hres as [(meta & Hmeta & <-) _]. cbn [app].
    rewrite (loop_step a post found s meta Hmeta), Hn. now rewrite app_nil_r.
  - destruct Hres as [_ Hres]. now destruct names.
  - destruct Hres as [_ Hres]. now destruct pre.
  - destruct Hres as [(meta & Hmeta & <-) Hres].
    inversion Hall as [|? ? Hm Hrest]; subst.
    change ((p :: pre) ++ a :: post) with (p :: pre ++ a :: post).
    rewrite (loop_step p _ found s meta Hmeta), Hm.
    rewrite (IH names _ (metadata_asked emailId s [p]) Hres Hrest Hn).
    now rewrite asked_asked, <- app_assoc.
Qed.

End Attachments.

(** C8.  With an open e-mail and a valid pattern, [seeEmailAttachment]
    requests the metadata of the attachments in their order.  When the
    names before some attachment do not match and its own name does, the
    assertion returns and no metadata after that attachment is requested.
    When the metadata of all attachments resolves and no name matches, it
    fails with the failure of [expect(...).toBeFalsy()] on a text in which
    the subject of the e-mail and every name found occur. *)
Theorem seeEmailAttachment_stops_at_first_match (mailslurp : MailSlurpClient.t)
    (RegExp : Type) (RegExp_new : string -> option RegExp)
    (String_match : string -> RegExp -> bool)
    (s : State) (email : Email.t) (nameRegExp : string) (regexp : RegExp) :
  MailSlurp.currentEmail (this s) = Some email ->
  RegExp_new nameRegExp = Some regexp ->
  let run := seeEmailAttachment mailslurp RegExp RegExp_new String_match nameRegExp s in
  let asked := metadata_asked (Email.id email) s in
  (forall pre a post names n,
     Email.attachments email = pre ++ a :: post ->
     resolves_names mailslurp (Email.id email) (calls s) (pre ++ [a]) (names ++ [n]) ->
     Forall (fun name => String_match name regexp = false) names ->
     String_match n regexp = true ->
     run = (Ok tt, asked (pre ++ [a]))) /\
  (forall names,
     resolves_names mailslurp (Email.id email) (calls s) (Email.attachments email) names ->
     Forall (fun name => String_match name regexp = false) names ->
     let message := attachment_not_found nameRegExp (Email.subject email) names in
     run = (Throw (AssertionError
                     (Expect.mk "toBeFalsy" false (Expect.Str message) None)),
            asked (Email.attachments email)) /\
     JS.includes message (Email.subject email) = true /\
     Forall (fun name => JS.includes message name = true) names).
Proof.
  intros Hopen Hvalid run asked.
  assert (Hrun : run
                 = bind (seeEmailAttachment_loop mailslurp RegExp RegExp_new String_match
                           nameRegExp (Email.id email) (Email.attachments email) [])
                     (fun out =>
                        let (returned, foundAttachmentNames) := out : bool * list string in
                        if returned then ret tt
                        else expect_toBeFalsy
                               (attachment_not_found nameRegExp (Email.subject email)
                                  foundAttachmentNames)) s).
  { subst run. unfold seeEmailAttachment, _hasCurrentEmail. unfold_M.
    rewrite Hopen. simpl. now rewrite Hopen. }
  split.
  - intros pre a post names n Hatt Hres Hall Hn.
    rewrite Hrun, Hatt. unfold bind.
    now rewrite (loop_match mailslurp RegExp RegExp_new String_match nameRegExp
                   (Email.id email) regexp Hvalid pre names a n post [] s Hres Hall Hn).
  - intros names Hres Hall message. split; [|split].
    + rewrite Hrun. unfold bind.
      now rewrite (loop_no_match mailslurp RegExp RegExp_new String_match nameRegExp
                     (Email.id email) regexp Hvalid _ names [] s Hres Hall).
    + apply substring_of_includes, attachment_not_found_subject.
    + apply Forall_forall. intros name Hin.
      now apply substring_of_includes, attachment_not_found_names.
Qed.

Lemma seeEmailAttachment_stops_at_first_match_witness :
  seeEmailAttachment test_client string literal_RegExp_new literal_String_match "README"
    (test_state (MailSlurp.set_currentEmail (Some test_email) test_helper))
  = (Ok tt,
     mkState (MailSlurp.set_currentEmail (Some test_email) test_helper)
       [MailSlurpClient.getAttachmentMetaData "mock-attachment-id" "email-id"] []) /\
  JS.includes
    (attachment_not_found "pdf" "Hello Test" ["README.md"]) "README.md" = true.
Proof.
  pose proof (seeEmailAttachment_stops_at_first_match test_client string
                literal_RegExp_new literal_String_match
                (test_state (MailSlurp.set_currentEmail (Some test_email) test_helper))
                test_email "README" "README" eq_refl eq_refl) as [Hfound _].
  pose proof (seeEmailAttachment_stops_at_first_match test_client string
                literal_RegExp_new literal_String_match
                (test_state (MailSlurp.set_currentEmail (Some test_email) test_helper))
                test_email "pdf" "pdf" eq_refl eq_refl) as [_ Hmissing].
  split.
  - apply (Hfound [] "mock-attachment-id" [] [] "README.md").
    + reflexivity.
    + simpl. split; [|exact I].
      exists (AttachmentMetaData.mk "README.md" "text/plain"). now split.
    + constructor.
    + reflexivity.
  - destruct (Hmissing ["README.md"]) as (_ & _ & Hnames).
    + simpl. split; [|exact I].
      exists (AttachmentMetaData.mk "README.md" "text/plain"). now split.
    + repeat constructor.
    + exact (Forall_inv Hnames).
Defined.

(** * Construction and the start of a test *)

(** X1.  The constructor throws exactly when the API key is absent or
    empty.  Otherwise the helper keeps the key, takes the timeout and the
    debug flag of the configuration, 10000 and [false] where they are
    absent, and has no fixture state yet. *)
Theorem constructor_requires_apiKey (cfg : Configuration.t) :
  ((Configuration.apiKey cfg = None \/ Configuration.apiKey cfg = Some EmptyString) ->
   constructor cfg
   = Throw (Error "MailSlurp is not configured! Please provide API key to access your account")) /\
  (forall key h,
     constructor cfg = Ok h ->
     Configuration.apiKey cfg = Some key ->
     key <> EmptyString /\
     Config.apiKey (MailSlurp.config h) = key /\
     (forall t, Configuration.timeout cfg = Some t -> Config.timeout (MailSlurp.config h) = t) /\
     (Configuration.timeout cfg = None -> Config.timeout (MailSlurp.config h) = 10000%Z) /\
     (forall d, Configuration.debug cfg = Some d -> Config.debug (MailSlurp.config h) = d) /\
     (Configuration.debug cfg = None -> Config.debug (MailSlurp.config h) = false) /\
     MailSlurp.mailboxes h = None /\
     MailSlurp.currentMailbox h = None /\
     MailSlurp.currentEmail h = None) /\
  (forall key, Configuration.apiKey cfg = Some key -> key <> EmptyString ->
               exists h, constructor cfg = Ok h).
Proof.
  unfold constructor. split; [|split].
  - intros [-> | ->]; reflexivity.
  - intros key h Hc Hkey. rewrite Hkey in Hc.
    destruct key as [|c rest]; simpl in Hc; [discriminate|].
    inversion Hc; subst h; clear Hc. simpl.
    split; [discriminate|]. split; [reflexivity|].
    repeat split.
    + now intros t ->.
    + now intros ->.
    + now intros d ->.
    + now intros ->.
  - intros [|c rest] Hkey Hne; [contradiction|].
    rewrite Hkey. simpl. eexists. reflexivity.
Qed.

Lemma constructor_requires_apiKey_witness :
  constructor (Configuration.mk None (Some 500%Z) None)
  = Throw (Error "MailSlurp is not configured! Please provide API key to access your account") /\
  exists h, constructor (Configuration.mk (Some "someApiKey") None None) = Ok h.
Proof.
  split.
  - apply (proj1 (constructor_requires_apiKey (Configuration.mk None (Some 500%Z) None))).
    left. reflexivity.
  - apply (proj2 (proj2 (constructor_requires_apiKey
                           (Configuration.mk (Some "someApiKey") None None)))
             "someApiKey"); [reflexivity | discriminate].
Defined.

(** X2.  [_before] empties the fixture state without a request, whatever
    was recorded: the mailboxes of an earlier test that are still recorded
    are forgotten, not deleted, and the [_after] that follows has nothing
    to delete. *)
Theorem _before_forgets_without_deleting (mailslurp : MailSlurpClient.t) (s : State) :
  fst (_before s) = Ok tt /\
  fixture_empty (this (snd (_before s))) /\
  MailSlurp.config (this (snd (_before s))) = MailSlurp.config (this s) /\
  calls (snd (_before s)) = calls s /\
  console (snd (_before s)) = console s /\
  _after mailslurp (snd (_before s)) = (Ok tt, snd (_before s)).
Proof. repeat split. Qed.

(** * Taking a mailbox *)

(** X3.  [haveNewMailbox] always requests [createInbox].  When the service
    rejects, the rejection is the failure and no field changes.  When it
    resolves on a helper whose [_before] has not run, the operation fails
    with the TypeError of [push] on the undefined array, after the inbox
    was created: the inbox is neither recorded nor current.  Otherwise the
    inbox is appended to the recorded ones, becomes current and is
    returned. *)
Theorem haveNewMailbox_outcomes (mailslurp : MailSlurpClient.t) (s : State) :
  let asked := mkState (this s) (calls s ++ [MailSlurpClient.createInbox]) (console s) in
  calls (snd (haveNewMailbox mailslurp s)) = calls s ++ [MailSlurpClient.createInbox] /\
  (forall e, mailslurp (calls s) MailSlurpClient.createInbox = Throw e ->
             haveNewMailbox mailslurp s = (Throw e, asked)) /\
  (forall inbox, mailslurp (calls s) MailSlurpClient.createInbox = Ok inbox ->
                 MailSlurp.mailboxes (this s) = None ->
                 haveNewMailbox mailslurp s = (Throw (TypeError "push"), asked)) /\
  (forall inbox recorded,
     mailslurp (calls s) MailSlurpClient.createInbox = Ok inbox ->
     MailSlurp.mailboxes (this s) = Some recorded ->
     haveNewMailbox mailslurp s
     = (Ok inbox,
        mkState (MailSlurp.mk (MailSlurp.config (this s)) (Some (recorded ++ [inbox]))
                   (Some inbox) (MailSlurp.currentEmail (this s)))
          (calls asked) (console s))).
Proof.
  intros asked. subst asked. unfold haveNewMailbox. unfold_M.
  split; [split_cases; reflexivity|]. split; [|split].
  - intros e He. simpl. now rewrite He.
  - intros inbox Hi Hm. simpl. rewrite Hi. simpl. now rewrite Hm.
  - intros inbox recorded Hi Hm. simpl. rewrite Hi. simpl. now rewrite Hm.
Qed.

Lemma haveNewMailbox_outcomes_witness :
  haveNewMailbox offline_client test_opened
  = (Throw (Rejection "network error"),
     mkState (this test_opened) [MailSlurpClient.createInbox] []) /\
  haveNewMailbox test_client test_fresh
  = (Throw (TypeError "push"), mkState (this test_fresh) [MailSlurpClient.createInbox] []) /\
  fst (haveNewMailbox test_client three_mailboxes) = Ok test_inbox.
Proof.
  pose proof (haveNewMailbox_outcomes offline_client test_opened) as (_ & R & _).
  pose proof (haveNewMailbox_outcomes test_client test_fresh) as (_ & _ & U & _).
  pose proof (haveNewMailbox_outcomes test_client three_mailboxes) as (_ & _ & _ & K).
  split; [apply R; reflexivity|].
  split; [apply (U test_inbox); reflexivity|].
  rewrite (K test_inbox _ eq_refl eq_refl). reflexivity.
Defined.

(** X4.  [haveExistingMailbox] with an id: when the service rejects
    [getInbox], the rejection is the failure and no field changes; when it
    resolves on a helper whose [_before] has not run, the operation fails
    with the TypeError of [push] and the inbox is neither recorded nor
    current. *)
Theorem haveExistingMailbox_failures (mailslurp : MailSlurpClient.t) (s : State)
    (mailboxId : string) :
  mailboxId <> EmptyString ->
  let asked :=
    mkState (this s) (calls s ++ [MailSlurpClient.getInbox mailboxId]) (console s) in
  (forall e, mailslurp (calls s) (MailSlurpClient.getInbox mailboxId) = Throw e ->
             haveExistingMailbox mailslurp (Some mailboxId) s = (Throw e, asked)) /\
  (forall inbox, mailslurp (calls s) (MailSlurpClient.getInbox mailboxId) = Ok inbox ->
                 MailSlurp.mailboxes (this s) = None ->
                 haveExistingMailbox mailslurp (Some mailboxId) s
                 = (Throw (TypeError "push"), asked)).
Proof.
  intros Hid asked. subst asked.
  destruct mailboxId as [|c rest]; [contradiction|].
  unfold haveExistingMailbox. unfold_M. split.
  - intros e He. simpl. now rewrite He.
  - intros inbox Hi Hm. simpl. rewrite Hi. simpl. now rewrite Hm.
Qed.

Lemma haveExistingMailbox_failures_witness :
  haveExistingMailbox offline_client (Some "123") test_opened
  = (Throw (Rejection "network error"),
     mkState (this test_opened) [MailSlurpClient.getInbox "123"] []) /\
  haveExistingMailbox test_client (Some "123") test_fresh
  = (Throw (TypeError "push"),
     mkState (this test_fresh) [MailSlurpClient.getInbox "123"] []).
Proof.
  pose proof (haveExistingMailbox_failures offline_client test_opened "123"
                ltac:(discriminate)) as [R _].
  pose proof (haveExistingMailbox_failures test_client test_fresh "123"
                ltac:(discriminate)) as [_ U].
  split; [apply R; reflexivity | apply (U test_inbox); reflexivity].
Defined.

(** * Operations on the current mailbox *)

(** X5.  Without a current mailbox, sending, each wait operation and each
    grab operation fail with the TypeError of reading [id] of [null]; no
    request is made and nothing changes. *)
Theorem operations_need_a_current_mailbox (mailslurp : MailSlurpClient.t) (s : State)
    (data : SendEmailOptions.t) (query : Query) (number : Z) (sec num : option Z) :
  MailSlurp.currentMailbox (this s) = None ->
  sendEmail mailslurp data s = (Throw (TypeError "id"), s) /\
  waitForLatestEmail mailslurp sec s = (Throw (TypeError "id"), s) /\
  waitForEmailMatching mailslurp query sec s = (Throw (TypeError "id"), s) /\
  waitForNthEmail mailslurp number sec s = (Throw (TypeError "id"), s) /\
  grabEmailsMatching mailslurp query num s = (Throw (TypeError "id"), s) /\
  grabAllEmailsFromMailbox mailslurp s = (Throw (TypeError "id"), s).
Proof.
  intros H.
  unfold sendEmail, waitForLatestEmail, waitForEmailMatching, waitForNthEmail,
    grabEmailsMatching, grabAllEmailsFromMailbox.
  unfold_M. rewrite H. repeat split.
Qed.

Lemma operations_need_a_current_mailbox_witness :
  waitForLatestEmail test_client (Some 50%Z) (test_state test_helper)
  = (Throw (TypeError "id"), test_state test_helper) /\
  grabAllEmailsFromMailbox test_client (test_state test_helper)
  = (Throw (TypeError "id"), test_state test_helper).
Proof.
  pose proof (operations_need_a_current_mailbox test_client (test_state test_helper)
                (SendEmailOptions.mk [] "s" "b" []) [] 1 (Some 50%Z) None eq_refl)
    as (_ & L & _ & _ & _ & G).
  exact (conj L G).
Defined.

(** X6.  With a current mailbox, [sendEmail] makes one request, for the id
    of the current mailbox and the data as given, settles as that request
    settles, and changes no field of the helper. *)
Theorem sendEmail_forwards (mailslurp : MailSlurpClient.t) (s : State)
    (inbox : Inbox.t) (data : SendEmailOptions.t) :
  MailSlurp.currentMailbox (this s) = Some inbox ->
  let r := MailSlurpClient.sendEmail (Inbox.id inbox) data in
  sendEmail mailslurp data s
  = (mailslurp (calls s) r, mkState (this s) (calls s ++ [r]) (console s)).
Proof.
  intros H r. subst r. unfold sendEmail. unfold_M. rewrite H. simpl.
  now destruct (mailslurp (calls s) (MailSlurpClient.sendEmail (Inbox.id inbox) data)).
Qed.

Lemma sendEmail_forwards_witness :
  sendEmail test_client (SendEmailOptions.mk ["hello@test.de"] "Hello Test" "Testing" [])
    test_opened
  = (Ok tt,
     mkState (this test_opened)
       [MailSlurpClient.sendEmail "123"
          (SendEmailOptions.mk ["hello@test.de"] "Hello Test" "Testing" [])] []).
Proof.
  exact (sendEmail_forwards test_client test_opened test_inbox
           (SendEmailOptions.mk ["hello@test.de"] "Hello Test" "Testing" []) eq_refl).
Defined.

(** * What a wait operation leaves alone *)

(** X7.  A wait operation that fails, whatever the reason, leaves every
    field of the helper as it was: the e-mail opened before stays open. *)
Theorem failed_wait_keeps_the_fields (mailslurp : MailSlurpClient.t) (s : State)
    (query : Query) (number : Z) (sec : option Z) :
  (forall e, fst (waitForLatestEmail mailslurp sec s) = Throw e ->
             this (snd (waitForLatestEmail mailslurp sec s)) = this s) /\
  (forall e, fst (waitForEmailMatching mailslurp query sec s) = Throw e ->
             this (snd (waitForEmailMatching mailslurp query sec s)) = this s) /\
  (forall e, fst (waitForNthEmail mailslurp number sec s) = Throw e ->
             this (snd (waitForNthEmail mailslurp number sec s)) = this s).
Proof.
  unfold waitForLatestEmail, waitForEmailMatching, waitForNthEmail. unfold_M.
  split; [|split]; split_cases; intros ? E; simpl in *; try discriminate; reflexivity.
Qed.

Lemma failed_wait_keeps_the_fields_witness :
  this (snd (waitForLatestEmail offline_client None test_opened)) = this test_opened /\
  this (snd (waitForEmailMatching silent_client [("subject", "Hello")] None test_opened))
  = this test_opened.
Proof.
  pose proof (failed_wait_keeps_the_fields offline_client test_opened [] 1 None)
    as (L & _).
  pose proof (failed_wait_keeps_the_fields silent_client test_opened
                [("subject", "Hello")] 1 None) as (_ & E & _).
  split.
  - apply (L (Rejection "network error")). reflexivity.
  - apply (E (TypeError "id")). reflexivity.
Defined.

(** X8.  A wait operation never touches the configuration, the recorded
    mailboxes or the current mailbox, whether it returns or fails. *)
Theorem wait_changes_only_currentEmail (mailslurp : MailSlurpClient.t) (s : State)
    (query : Query) (number : Z) (sec : option Z) :
  let unchanged (s' : State) :=
    MailSlurp.config (this s') = MailSlurp.config (this s) /\
    MailSlurp.mailboxes (this s') = MailSlurp.mailboxes (this s) /\
    MailSlurp.currentMailbox (this s') = MailSlurp.currentMailbox (this s) in
  unchanged (snd (waitForLatestEmail mailslurp sec s)) /\
  unchanged (snd (waitForEmailMatching mailslurp query sec s)) /\
  unchanged (snd (waitForNthEmail mailslurp number sec s)).
Proof.
  intros unchanged. subst unchanged. cbv beta.
  unfold waitForLatestEmail, waitForEmailMatching, waitForNthEmail. unfold_M.
  split; [|split]; split_cases; repeat split; simpl; congruence.
Qed.

(** X9.  What the three wait operations write with [debug]: after a
    message was received, one line naming its sender and subject when the
    [debug] flag of the configuration is set, and nothing otherwise; nothing
    when the operation fails. *)
Theorem wait_logs_only_when_debugging (mailslurp : MailSlurpClient.t) (s : State)
    (query : Query) (number : Z) (sec : option Z) :
  let logged (out : result Email.t * State) :=
    console (snd out)
    = match fst out with
      | Ok email =>
          if Config.debug (MailSlurp.config (this s))
          then console s ++ [received_email_line email]
          else console s
      | Throw _ => console s
      end in
  logged (waitForLatestEmail mailslurp sec s) /\
  logged (waitForEmailMatching mailslurp query sec s) /\
  logged (waitForNthEmail mailslurp number sec s).
Proof.
  intros logged. subst logged. cbv beta.
  unfold waitForLatestEmail, waitForEmailMatching, waitForNthEmail, received_email_line.
  unfold_M.
  split; [|split]; split_cases; reflexivity.
Qed.

(** * The grab operations *)

Lemma getEmail_pending_promises (mailslurp : MailSlurpClient.t)
    (hist : list MailSlurpClient.request) (previews : list EmailPreview.t) :
  map snd (getEmail_pending mailslurp hist previews)
  = getEmail_promises mailslurp hist previews.
Proof.
  revert hist. induction previews as [|p rest IH]; intros hist; simpl; [reflexivity|].
  now rewrite IH.
Qed.

(** Every fetch in flight is the fetch of the message of one of the
    previews, asked after the fetches for the previews before it. *)
Lemma getEmail_pending_In (mailslurp : MailSlurpClient.t)
    (hist : list MailSlurpClient.request) (previews : list EmailPreview.t)
    (t : nat) (q : Promise Email.t) :
  In (t, q) (getEmail_pending mailslurp hist previews) ->
  exists pre p post,
    previews = pre ++ p :: post /\
    q = mailslurp (hist ++ map getEmail_request pre) (getEmail_request p).
Proof.
  revert hist. induction previews as [|p rest IH]; intros hist; simpl; [contradiction|].
  intros [E|Hin].
  - inversion E; subst. exists [], p, rest. simpl. now rewrite app_nil_r.
  - destruct (IH _ Hin) as (pre & p' & post & -> & ->).
    exists (p :: pre), p', post. simpl. now rewrite <- app_assoc.
Qed.

(** The fan-out of the grab operations: every message is requested, in the
    order of the previews. *)
Lemma Array_map_getEmail (mailslurp : MailSlurpClient.t) (previews : list EmailPreview.t)
    (s : State) :
  Array_map (B := Pending Email.t)
    (fun e => request mailslurp (MailSlurpClient.getEmail (EmailPreview.id e))) previews s
  = (Ok (getEmail_pending mailslurp (calls s) previews),
     mkState (this s) (calls s ++ map getEmail_request previews) (console s)).
Proof.
  revert s. induction previews as [|e rest IH]; intros s; simpl.
  - unfold ret. now rewrite app_nil_r, state_eta.
  - unfold bind at 1. unfold request at 1. unfold bind at 1.
    rewrite IH. simpl. unfold ret. fold (getEmail_request e).
    now rewrite <- app_assoc.
Qed.

(** How the fetches of the messages of [previews] settle together. *)
Lemma getEmail_outcome (mailslurp : MailSlurpClient.t)
    (hist : list MailSlurpClient.request) (previews : list EmailPreview.t) :
  let out := snd (Promise_all (getEmail_pending mailslurp hist previews)) in
  let promises := getEmail_promises mailslurp hist previews in
  (Forall resolved promises -> resolved out) /\
  (forall emails,
     out = Ok emails ->
     Forall2 (fun p email => p = Ok email) promises emails /\
     length emails = length previews) /\
  (Exists rejected promises -> rejected out) /\
  (forall e,
     out = Throw e ->
     rejected_first (getEmail_pending mailslurp hist previews) e /\
     exists pre p post,
       previews = pre ++ p :: post /\
       mailslurp (hist ++ map getEmail_request pre) (getEmail_request p) = Throw e).
Proof.
  intros out promises. subst out promises.
  rewrite <- getEmail_pending_promises.
  split; [apply Promise_all_resolved|]. split; [|split; [apply Promise_all_rejected|]].
  - intros emails Hok. apply Promise_all_values in Hok.
    assert (F : Forall2 (fun p email => p = Ok email)
                  (map snd (getEmail_pending mailslurp hist previews)) emails).
    { clear - Hok. induction Hok; simpl; constructor; auto. }
    split; [exact F|].
    apply Forall2_length in F. rewrite <- F, length_map.
    clear. revert hist. induction previews as [|p rest IH]; intros hist; simpl;
      [reflexivity | now rewrite IH].
  - intros e Hfail. pose proof (Promise_all_reason _ _ Hfail) as First.
    split; [exact First|].
    destruct First as (t & Hin & _).
    destruct (getEmail_pending_In mailslurp hist previews t _ Hin)
      as (pre & p & post & Hp & Hq).
    exists pre, p, post. now split.
Qed.

(** X10.  [grabEmailsMatching] with a current mailbox asks the service to
    wait for [num] previews that match the translated query, with the
    configured timeout.  A rejection is the failure.  Otherwise it writes
    [Received n emails] with [debug] whatever the [debug] flag says and
    requests the message of every preview in the order of the previews.
    When all these requests resolve it returns, and when it returns the
    messages are the ones the requests resolved with, one per preview in
    that order.  When one is rejected it fails, and when it fails the
    failure is the rejection the service gave to one of these requests, the
    one rejected first. *)
Theorem grabEmailsMatching_fetches_every_preview (mailslurp : MailSlurpClient.t)
    (s : State) (inbox : Inbox.t) (query : Query) (num : option Z) :
  MailSlurp.currentMailbox (this s) = Some inbox ->
  let r := MailSlurpClient.waitForMatchingEmails (matchEmailBy query) num
             (Inbox.id inbox) (default_timeout s) in
  (forall e, mailslurp (calls s) r = Throw e ->
             grabEmailsMatching mailslurp query num s
             = (Throw e, mkState (this s) (calls s ++ [r]) (console s))) /\
  (forall previews,
     mailslurp (calls s) r = Ok previews ->
     let promises := getEmail_promises mailslurp (calls s ++ [r]) previews in
     snd (grabEmailsMatching mailslurp query num s)
     = mkState (this s) (calls s ++ r :: map getEmail_request previews)
         (console s ++ [received_emails_line (length previews)]) /\
     (Forall resolved promises ->
      resolved (fst (grabEmailsMatching mailslurp query num s))) /\
     (forall emails,
        fst (grabEmailsMatching mailslurp query num s) = Ok emails ->
        Forall2 (fun p email => p = Ok email) promises emails /\
        length emails = length previews) /\
     (Exists rejected promises ->
      rejected (fst (grabEmailsMatching mailslurp query num s))) /\
     (forall e,
        fst (grabEmailsMatching mailslurp query num s) = Throw e ->
        rejected_first (getEmail_pending mailslurp (calls s ++ [r]) previews) e /\
        exists pre p post,
          previews = pre ++ p :: post /\
          mailslurp ((calls s ++ [r]) ++ map getEmail_request pre) (getEmail_request p)
          = Throw e)).
Proof.
  intros H r.
  assert (E : grabEmailsMatching mailslurp query num s
              = match mailslurp (calls s) r with
                | Throw e => (Throw e, mkState (this s) (calls s ++ [r]) (console s))
                | Ok previews =>
                    (snd (Promise_all (getEmail_pending mailslurp (calls s ++ [r]) previews)),
                     mkState (this s) (calls s ++ r :: map getEmail_request previews)
                       (console s ++ [received_emails_line (length previews)]))
                end).
  { unfold grabEmailsMatching. unfold bind at 1. unfold currentMailbox_id, get_this, prop.
    unfold bind at 1. rewrite H. unfold ret at 1.
    unfold bind at 1. unfold bind at 1. rewrite call_run.
    cbn [this calls console fst snd]. fold (default_timeout s). fold r.
    destruct (mailslurp (calls s) r) as [previews|e]; [|reflexivity].
    unfold bind at 1. unfold debug at 1. unfold bind at 1.
    rewrite Array_map_getEmail. cbn [this calls console].
    unfold await, received_emails_line. now rewrite <- app_assoc. }
  split.
  - intros e He. now rewrite E, He.
  - intros previews Hp promises. rewrite E, Hp. cbn [fst snd].
    split; [reflexivity|].
    exact (getEmail_outcome mailslurp (calls s ++ [r]) previews).
Qed.

Lemma grabEmailsMatching_fetches_every_preview_witness :
  snd (grabEmailsMatching test_client [("from", "hello@test.de")] (Some 2%Z) test_opened)
  = mkState (this test_opened)
      [MailSlurpClient.waitForMatchingEmails
         (MatchOptions.mk [MatchOption.mk "FROM" "hello@test.de" CONTAIN])
         (Some 2%Z) "123" 10000;
       MailSlurpClient.getEmail "email-id"]
      ["Received 1 emails"] /\
  resolved (fst (grabEmailsMatching test_client [("from", "hello@test.de")] (Some 2%Z)
                   test_opened)) /\
  (exists pre p post,
     [EmailPreview.mk "slow-id" "Hello Test"; EmailPreview.mk "fast-id" "Hello Test"]
     = pre ++ p :: post /\
     racing_client
       ((calls test_opened
         ++ [MailSlurpClient.waitForMatchingEmails
               (MatchOptions.mk [MatchOption.mk "FROM" "hello@test.de" CONTAIN])
               (Some 2%Z) "123" 10000])
        ++ map getEmail_request pre)
       (getEmail_request p)
     = Throw (Rejection "fast")).
Proof.
  pose proof (grabEmailsMatching_fetches_every_preview test_client test_opened test_inbox
                [("from", "hello@test.de")] (Some 2%Z) eq_refl) as [_ G].
  destruct (G [test_preview] eq_refl) as (S & R & _).
  pose proof (grabEmailsMatching_fetches_every_preview racing_client test_opened test_inbox
                [("from", "hello@test.de")] (Some 2%Z) eq_refl) as [_ G'].
  destruct (G' _ eq_refl) as (_ & _ & _ & _ & F).
  split; [exact S|]. split.
  - apply R. repeat constructor. now exists test_email.
  - exact (proj2 (F (Rejection "fast") eq_refl)).
Defined.

(** Of two rejected fetches, the grab operations fail with the one
    rejected first, here the second of the array. *)
Example grab_reports_the_first_rejection :
  fst (grabEmailsMatching racing_client [("from", "hello@test.de")] (Some 2%Z) test_opened)
  = Throw (Rejection "fast") /\
  fst (grabAllEmailsFromMailbox racing_client test_opened) = Throw (Rejection "fast").
Proof. split; reflexivity. Qed.

(** X11.  [grabAllEmailsFromMailbox] with a current mailbox lists the
    previews of that mailbox, with no timeout.  A rejection is the failure.
    Otherwise it writes [Received n emails] and requests the message of
    every preview in the order of the previews.  When all these requests
    resolve it returns, and when it returns the messages are the ones the
    requests resolved with, one per preview in that order.  When one is
    rejected it fails, and when it fails the failure is the rejection the
    service gave to one of these requests, the one rejected first. *)
Theorem grabAllEmailsFromMailbox_fetches_every_preview (mailslurp : MailSlurpClient.t)
    (s : State) (inbox : Inbox.t) :
  MailSlurp.currentMailbox (this s) = Some inbox ->
  let r := MailSlurpClient.getEmails (Inbox.id inbox) in
  (forall e, mailslurp (calls s) r = Throw e ->
             grabAllEmailsFromMailbox mailslurp s
             = (Throw e, mkState (this s) (calls s ++ [r]) (console s))) /\
  (forall previews,
     mailslurp (calls s) r = Ok previews ->
     let promises := getEmail_promises mailslurp (calls s ++ [r]) previews in
     snd (grabAllEmailsFromMailbox mailslurp s)
     = mkState (this s) (calls s ++ r :: map getEmail_request previews)
         (console s ++ [received_emails_line (length previews)]) /\
     (Forall resolved promises ->
      resolved (fst (grabAllEmailsFromMailbox mailslurp s))) /\
     (forall emails,
        fst (grabAllEmailsFromMailbox mailslurp s) = Ok emails ->
        Forall2 (fun p email => p = Ok email) promises emails /\
        length emails = length previews) /\
     (Exists rejected promises ->
      rejected (fst (grabAllEmailsFromMailbox mailslurp s))) /\
     (forall e,
        fst (grabAllEmailsFromMailbox mailslurp s) = Throw e ->
        rejected_first (getEmail_pending mailslurp (calls s ++ [r]) previews) e /\
        exists pre p post,
          previews = pre ++ p :: post /\
          mailslurp ((calls s ++ [r]) ++ map getEmail_request pre) (getEmail_request p)
          = Throw e)).
Proof.
  intros H r.
  assert (E : grabAllEmailsFromMailbox mailslurp s
              = match mailslurp (calls s) r with
                | Throw e => (Throw e, mkState (this s) (calls s ++ [r]) (console s))
                | Ok previews =>
                    (snd (Promise_all (getEmail_pending mailslurp (calls s ++ [r]) previews)),
                     mkState (this s) (calls s ++ r :: map getEmail_request previews)
                       (console s ++ [received_emails_line (length previews)]))
                end).
  { unfold grabAllEmailsFromMailbox. unfold bind at 1.
    unfold currentMailbox_id, get_this, prop.
    unfold bind at 1. rewrite H. unfold ret at 1.
    unfold bind at 1. rewrite call_run.
    cbn [this calls console fst snd]. fold r.
    destruct (mailslurp (calls s) r) as [previews|e]; [|reflexivity].
    unfold bind at 1. unfold debug at 1. unfold bind at 1.
    rewrite Array_map_getEmail. cbn [this calls console].
    unfold await, received_emails_line. now rewrite <- app_assoc. }
  split.
  - intros e He. now rewrite E, He.
  - intros previews Hp promises. rewrite E, Hp. cbn [fst snd].
    split; [reflexivity|].
    exact (getEmail_outcome mailslurp (calls s ++ [r]) previews).
Qed.

Lemma grabAllEmailsFromMailbox_fetches_every_preview_witness :
  snd (grabAllEmailsFromMailbox test_client test_opened)
  = mkState (this test_opened)
      [MailSlurpClient.getEmails "123"; MailSlurpClient.getEmail "email-id"]
      ["Received 1 emails"] /\
  resolved (fst (grabAllEmailsFromMailbox test_client test_opened)) /\
  (exists pre p post,
     [EmailPreview.mk "slow-id" "Hello Test"; EmailPreview.mk "fast-id" "Hello Test"]
     = pre ++ p :: post /\
     racing_client
       ((calls test_opened ++ [MailSlurpClient.getEmails "123"])
        ++ map getEmail_request pre)
       (getEmail_request p)
     = Throw (Rejection "fast")).
Proof.
  pose proof (grabAllEmailsFromMailbox_fetches_every_preview test_client test_opened
                test_inbox eq_refl) as [_ G].
  destruct (G [test_preview] eq_refl) as (S & R & _).
  pose proof (grabAllEmailsFromMailbox_fetches_every_preview racing_client test_opened
                test_inbox eq_refl) as [_ G'].
  destruct (G' _ eq_refl) as (_ & _ & _ & _ & F).
  split; [exact S|]. split.
  - apply R. repeat constructor. now exists test_email.
  - exact (proj2 (F (Rejection "fast") eq_refl)).
Defined.

(** * Teardown, again *)

Lemma _after_nothing_recorded (mailslurp : MailSlurpClient.t) (s : State) :
  MailSlurp.mailboxes (this s) = None \/ MailSlurp.mailboxes (this s) = Some [] ->
  _after mailslurp s = (Ok tt, s).
Proof. intros [H|H]; unfold _after; unfold_M; now rewrite H. Qed.

(** X12.  Running [_after] a second time.  On a helper whose [_before] has
    not run, [_after] returns at once.  After an [_after] that failed, the
    record is still there, and a second [_after] requests the deletion of
    every recorded mailbox again, those already deleted included.  After an
    [_after] that returned, a second one makes no request and changes
    nothing. *)
Theorem _after_twice (mailslurp : MailSlurpClient.t) (s : State) :
  let s1 := snd (_after mailslurp s) in
  (MailSlurp.mailboxes (this s) = None -> _after mailslurp s = (Ok tt, s)) /\
  (forall ms e,
     MailSlurp.mailboxes (this s) = Some ms ->
     fst (_after mailslurp s) = Throw e ->
     calls (snd (_after mailslurp s1))
     = (calls s ++ map delete_request ms) ++ map delete_request ms) /\
  (fst (_after mailslurp s) = Ok tt -> _after mailslurp s1 = (Ok tt, s1)).
Proof.
  intros s1. split; [|split].
  - intros H. apply _after_nothing_recorded. now left.
  - intros ms e H Hfail.
    assert (Hne : ms <> []).
    { intros ->. rewrite (_after_nothing_recorded mailslurp s) in Hfail by now right.
      discriminate. }
    assert (Hs1 : this s1 = this s /\ calls s1 = calls s ++ map delete_request ms).
    { subst s1. rewrite (_after_run mailslurp s ms H Hne) in *.
      destruct (snd (Promise_all _)); [discriminate | split; reflexivity]. }
    destruct Hs1 as [Hthis Hcalls].
    rewrite (_after_requests mailslurp s1 ms) by now rewrite Hthis.
    now rewrite Hcalls.
  - intros Hok. apply _after_nothing_recorded.
    destruct (MailSlurp.mailboxes (this s)) as [[|m rest]|] eqn:H.
    + subst s1. rewrite (_after_nothing_recorded mailslurp s) by now right.
      now right.
    + subst s1. rewrite (_after_run mailslurp s (m :: rest) H) in * by discriminate.
      destruct (snd (Promise_all _)); [now right | discriminate].
    + subst s1. rewrite (_after_nothing_recorded mailslurp s) by now left.
      now left.
Qed.

Lemma _after_twice_witness :
  _after test_client test_fresh = (Ok tt, test_fresh) /\
  calls (snd (_after refusing_client (snd (_after refusing_client three_mailboxes))))
  = [MailSlurpClient.deleteInbox "a"; MailSlurpClient.deleteInbox "b";
     MailSlurpClient.deleteInbox "c"; MailSlurpClient.deleteInbox "a";
     MailSlurpClient.deleteInbox "b"; MailSlurpClient.deleteInbox "c"] /\
  _after test_client (snd (_after test_client three_mailboxes))
  = (Ok tt, snd (_after test_client three_mailboxes)).
Proof.
  pose proof (_after_twice test_client test_fresh) as (F & _).
  pose proof (_after_twice refusing_client three_mailboxes) as (_ & R & _).
  pose proof (_after_twice test_client three_mailboxes) as (_ & _ & K).
  split; [apply F; reflexivity|].
  split; [|apply K; reflexivity].
  apply (R _ (Rejection "inbox not found") eq_refl eq_refl).
Defined.

(** X13.  What [_after] writes with [debug]: with at least one recorded
    mailbox, the line [Removed k mailboxes] when every deletion resolved and
    the [debug] flag is set, and nothing otherwise. *)
Theorem _after_logs_only_when_debugging (mailslurp : MailSlurpClient.t) (s : State)
    (ms : list Inbox.t) :
  MailSlurp.mailboxes (this s) = Some ms ->
  ms <> [] ->
  console (snd (_after mailslurp s))
  = match fst (_after mailslurp s) with
    | Ok _ =>
        if Config.debug (MailSlurp.config (this s))
        then console s ++ [removed_mailboxes_line (length ms)]
        else console s
    | Throw _ => console s
    end.
Proof.
  intros H Hne. rewrite (_after_run mailslurp s ms H Hne).
  destruct (snd (Promise_all _)); reflexivity.
Qed.

Lemma _after_logs_only_when_debugging_witness :
  console (snd (_after test_client three_mailboxes)) = [] /\
  console (snd (_after test_client
                  (mkState (MailSlurp.mk (Config.mk "someApiKey" 10000 true)
                              (Some [test_inbox]) None None) [] [])))
  = ["Removed 1 mailboxes"].
Proof.
  split.
  - exact (_after_logs_only_when_debugging test_client three_mailboxes _ eq_refl
             ltac:(discriminate)).
  - exact (_after_logs_only_when_debugging test_client
             (mkState (MailSlurp.mk (Config.mk "someApiKey" 10000 true)
                         (Some [test_inbox]) None None) [] [])
             _ eq_refl ltac:(discriminate)).
Defined.

(** * Content assertions on an open e-mail *)

Lemma prefix_true_app (sub s : string) :
  String.prefix sub s = true -> exists post, s = (sub ++ post)%string.
Proof.
  revert s. induction sub as [|c sub IH]; intros s H.
  - now exists s.
  - destruct s as [|d s]; simpl in H; [discriminate|].
    destruct (ascii_dec c d) as [->|]; [|discriminate].
    destruct (IH s H) as [post ->]. now exists post.
Qed.

(** [includes] finds nothing else than occurrences. *)
Lemma includes_substring_of (sub s : string) :
  JS.includes s sub = true -> substring_of sub s.
Proof.
  induction s as [|c s IH]; rewrite includes_unfold; intros H;
    apply orb_true_iff in H; destruct H as [H|H]; try discriminate.
  - destruct (prefix_true_app _ _ H) as [post E].
    exists EmptyString, post. exact E.
  - destruct (prefix_true_app _ _ H) as [post E].
    exists EmptyString, post. exact E.
  - destruct (IH H) as (pre & post & ->).
    now exists (String c pre), post.
Qed.

Lemma includes_iff (sub s : string) :
  JS.includes s sub = true <-> substring_of sub s.
Proof. split; [apply includes_substring_of | apply substring_of_includes]. Qed.

Lemma includes_false_iff (sub s : string) :
  JS.includes s sub = false <-> ~ substring_of sub s.
Proof.
  rewrite <- includes_iff. destruct (JS.includes s sub); split; intros; congruence.
Qed.

Lemma email_field_open {A : Type} (name : string) (f : Email.t -> A) (k : A -> M unit)
    (s : State) (email : Email.t) :
  MailSlurp.currentEmail (this s) = Some email ->
  bind _hasCurrentEmail (fun _ => bind (email_field name f) k) s = k (f email) s.
Proof.
  intros H. unfold _hasCurrentEmail. unfold_M. rewrite H. simpl. now rewrite H.
Qed.

(** X14.  On an open e-mail, [seeInEmailSubject], [seeInEmailBody] and
    [seeEmailIsFrom] return exactly when the text occurs in the subject, the
    body and the sender, and [dontSeeInEmailSubject] and
    [dontSeeInEmailBody] exactly when it does not occur. *)
Theorem contain_assertions_pass_iff (s : State) (email : Email.t) (text : string) :
  MailSlurp.currentEmail (this s) = Some email ->
  (fst (seeInEmailSubject text s) = Ok tt <-> substring_of text (Email.subject email)) /\
  (fst (dontSeeInEmailSubject text s) = Ok tt <-> ~ substring_of text (Email.subject email)) /\
  (fst (seeInEmailBody text s) = Ok tt <-> substring_of text (Email.body email)) /\
  (fst (dontSeeInEmailBody text s) = Ok tt <-> ~ substring_of text (Email.body email)) /\
  (fst (seeEmailIsFrom text s) = Ok tt <-> substring_of text (Email.from email)).
Proof.
  intros H.
  unfold seeInEmailSubject, dontSeeInEmailSubject, seeInEmailBody, dontSeeInEmailBody,
    seeEmailIsFrom.
  rewrite !(email_field_open _ _ _ s email H).
  unfold expect_toContain, expect_not_toContain.
  rewrite <- !includes_false_iff, <- !includes_iff.
  repeat split; intros E;
    match goal with
    | _ : context [JS.includes ?a ?b] |- _ => destruct (JS.includes a b)
    | |- context [JS.includes ?a ?b] => destruct (JS.includes a b)
    end; simpl in *; congruence.
Qed.

Lemma contain_assertions_pass_iff_witness :
  fst (seeInEmailSubject "Hello" test_reading) = Ok tt /\
  fst (dontSeeInEmailBody "Email" test_reading) = Ok tt.
Proof.
  pose proof (contain_assertions_pass_iff test_reading test_email "Hello" eq_refl)
    as (S & _).
  pose proof (contain_assertions_pass_iff test_reading test_email "Email" eq_refl)
    as (_ & _ & _ & B & _).
  split.
  - apply S. exists EmptyString, " Test". reflexivity.
  - apply B. intros Hsub. apply includes_iff in Hsub. discriminate Hsub.
Defined.

(** X15.  On an open e-mail, [seeEmailSubjectEquals] returns exactly when
    the subject is the text, [dontSeeEmailSubjectEquals] exactly when it is
    not, and [seeNumberOfEmailAttachments] exactly when the number is the
    number of attachments. *)
Theorem equality_assertions_pass_iff (s : State) (email : Email.t) (text : string)
    (number : Z) :
  MailSlurp.currentEmail (this s) = Some email ->
  (fst (seeEmailSubjectEquals text s) = Ok tt <-> Email.subject email = text) /\
  (fst (dontSeeEmailSubjectEquals text s) = Ok tt <-> Email.subject email <> text) /\
  (fst (seeNumberOfEmailAttachments number s) = Ok tt
   <-> number = Z.of_nat (length (Email.attachments email))).
Proof.
  intros H.
  unfold seeEmailSubjectEquals, dontSeeEmailSubjectEquals, seeNumberOfEmailAttachments.
  rewrite !(email_field_open _ _ _ s email H).
  unfold expect_toEqual, expect_not_toEqual, expect_toEqual_number.
  destruct (String.eqb_spec (Email.subject email) text) as [E|E];
    destruct (Z.eqb_spec (Z.of_nat (length (Email.attachments email))) number) as [N|N];
    simpl; repeat split; intros; try congruence; try discriminate.
Qed.

Lemma equality_assertions_pass_iff_witness :
  fst (seeEmailSubjectEquals "Hello Test" test_reading) = Ok tt /\
  fst (dontSeeEmailSubjectEquals "Bye" test_reading) = Ok tt /\
  fst (seeNumberOfEmailAttachments 1 test_reading) = Ok tt.
Proof.
  pose proof (equality_assertions_pass_iff test_reading test_email "Hello Test" 1 eq_refl)
    as (S & _ & N).
  pose proof (equality_assertions_pass_iff test_reading test_email "Bye" 1 eq_refl)
    as (_ & D & _).
  split; [apply S; reflexivity|].
  split; [apply D; discriminate | apply N; reflexivity].
Defined.

(** X16.  The eight synchronous content assertions never change anything:
    whether they return or throw, the fields of the helper, the requests
    made and the lines written are what they were. *)
Theorem assertions_change_nothing (s : State) (text : string) (number : Z) :
  snd (seeInEmailSubject text s) = s /\
  snd (dontSeeInEmailSubject text s) = s /\
  snd (seeInEmailBody text s) = s /\
  snd (dontSeeInEmailBody text s) = s /\
  snd (seeEmailIsFrom text s) = s /\
  snd (seeEmailSubjectEquals text s) = s /\
  snd (dontSeeEmailSubjectEquals text s) = s /\
  snd (seeNumberOfEmailAttachments number s) = s.
Proof.
  unfold seeInEmailSubject, dontSeeInEmailSubject, seeInEmailBody, dontSeeInEmailBody,
    seeEmailIsFrom, seeEmailSubjectEquals, dontSeeEmailSubjectEquals,
    seeNumberOfEmailAttachments, _hasCurrentEmail,
    expect_toContain, expect_not_toContain, expect_toEqual, expect_not_toEqual,
    expect_toEqual_number.
  unfold_M.
  repeat split; split_cases; reflexivity.
Qed.

(** * Looking for an attachment, the other outcomes *)

Lemma console_bind {A B : Type} (c : M A) (k : A -> M B) :
  preserves_console c -> (forall a, preserves_console (k a)) ->
  preserves_console (bind c k).
Proof.
  intros Hc Hk s. unfold bind. specialize (Hc s).
  destruct (c s) as [[a|e] s']; simpl in *.
  - now rewrite Hk.
  - exact Hc.
Qed.

Lemma console_call (mailslurp : MailSlurpClient.t) (r : MailSlurpClient.request) :
  preserves_console (call mailslurp r).
Proof. intros s. rewrite call_run. reflexivity. Qed.

Lemma this_call (mailslurp : MailSlurpClient.t) (r : MailSlurpClient.request) :
  preserves_this (call mailslurp r).
Proof. intros s. rewrite call_run. reflexivity. Qed.

Lemma this_hasCurrentEmail : preserves_this _hasCurrentEmail.
Proof. intros s. unfold _hasCurrentEmail. unfold_M. now destruct (MailSlurp.currentEmail _). Qed.

Lemma console_hasCurrentEmail : preserves_console _hasCurrentEmail.
Proof. intros s. unfold _hasCurrentEmail. unfold_M. now destruct (MailSlurp.currentEmail _). Qed.

Lemma this_email_field {A : Type} (name : string) (f : Email.t -> A) :
  preserves_this (email_field name f).
Proof. intros s. unfold email_field. unfold_M. now destruct (MailSlurp.currentEmail _). Qed.

Lemma console_email_field {A : Type} (name : string) (f : Email.t -> A) :
  preserves_console (email_field name f).
Proof. intros s. unfold email_field. unfold_M. now destruct (MailSlurp.currentEmail _). Qed.

Lemma this_toBeFalsy (received : string) : preserves_this (expect_toBeFalsy received).
Proof. intros s. now destruct received. Qed.

Lemma console_toBeFalsy (received : string) : preserves_console (expect_toBeFalsy received).
Proof. intros s. now destruct received. Qed.

Section AttachmentsAgain.

Variable mailslurp : MailSlurpClient.t.
Variable RegExp : Type.
Variable RegExp_new : string -> option RegExp.
Variable String_match : string -> RegExp -> bool.
Variables nameRegExp emailId : string.

Lemma this_loop (ids found : list string) :
  preserves_this
    (seeEmailAttachment_loop mailslurp RegExp RegExp_new String_match nameRegExp emailId
       ids found).
Proof.
  revert found. induction ids as [|a ids IH]; intros found; cbn [seeEmailAttachment_loop].
  - apply preserves_ret.
  - apply preserves_bind; [apply this_call|]. intros meta.
    destruct (RegExp_new nameRegExp); [|apply preserves_throw].
    destruct (String_match _ _); [apply preserves_ret | apply IH].
Qed.

Lemma console_loop (ids found : list string) :
  preserves_console
    (seeEmailAttachment_loop mailslurp RegExp RegExp_new String_match nameRegExp emailId
       ids found).
Proof.
  revert found. induction ids as [|a ids IH]; intros found; cbn [seeEmailAttachment_loop].
  - intros s. reflexivity.
  - apply console_bind; [apply console_call|]. intros meta.
    destruct (RegExp_new nameRegExp); [|intros s; reflexivity].
    destruct (String_match _ _); [intros s; reflexivity | apply IH].
Qed.

(** The loop requests the metadata of a first part of the attachments, in
    their order, and nothing else. *)
Lemma calls_loop (ids found : list string) (s : State) :
  exists n,
    calls (snd (seeEmailAttachment_loop mailslurp RegExp RegExp_new String_match
                  nameRegExp emailId ids found s))
    = calls s ++ map (metadata_request emailId) (firstn n ids).
Proof.
  revert found s. induction ids as [|a ids IH]; intros found s;
    cbn [seeEmailAttachment_loop].
  - exists 0. simpl. now rewrite app_nil_r.
  - unfold bind at 1. rewrite call_run. fold (metadata_request emailId a).
    destruct (mailslurp (calls s) (metadata_request emailId a)) as [meta|e].
    + destruct (RegExp_new nameRegExp) as [regexp|].
      * destruct (String_match (AttachmentMetaData.name meta) regexp).
        -- exists 1. reflexivity.
        -- destruct (IH (found ++ [AttachmentMetaData.name meta])
                       (mkState (this s) (calls s ++ [metadata_request emailId a])
                          (console s))) as [n Hn].
           exists (S n). rewrite Hn. simpl. now rewrite <- app_assoc.
      * exists 1. reflexivity.
    + exists 1. reflexivity.
Qed.

(** The loop stops at the first metadata request that is rejected. *)
Lemma loop_rejected (regexp : RegExp) (pre names : list string) (a : string)
    (post found : list string) (s : State) (e : error) :
  RegExp_new nameRegExp = Some regexp ->
  resolves_names mailslurp emailId (calls s) pre names ->
  Forall (fun name => String_match name regexp = false) names ->
  mailslurp (calls s ++ map (metadata_request emailId) pre) (metadata_request emailId a)
  = Throw e ->
  seeEmailAttachment_loop mailslurp RegExp RegExp_new String_match nameRegExp emailId
    (pre ++ a :: post) found s
  = (Throw e, metadata_asked emailId s (pre ++ [a])).
Proof.
  intros Hvalid. revert names found s.
  induction pre as [|p pre IH]; intros [|m names] found s Hres Hall Hrej;
    try contradiction.
  - cbn [app seeEmailAttachment_loop]. unfold bind at 1. rewrite call_run.
    fold (metadata_request emailId a).
    simpl in Hrej. rewrite app_nil_r in Hrej. now rewrite Hrej.
  - destruct Hres as [(meta & Hmeta & <-) Hres].
    inversion Hall as [|? ? Hm Hrest]; subst.
    change ((p :: pre) ++ a :: post) with (p :: pre ++ a :: post).
    rewrite (loop_step mailslurp RegExp RegExp_new String_match nameRegExp emailId regexp
               Hvalid p _ found s meta Hmeta), Hm.
    rewrite (IH names _ (metadata_asked emailId s [p]) Hres Hrest).
    + now rewrite asked_asked.
    + unfold metadata_asked. cbn [calls]. simpl in Hrej.
      now rewrite <- app_assoc.
Qed.

End AttachmentsAgain.

Lemma seeEmailAttachment_open (mailslurp : MailSlurpClient.t)
    (RegExp : Type) (RegExp_new : string -> option RegExp)
    (String_match : string -> RegExp -> bool)
    (s : State) (email : Email.t) (nameRegExp : string) :
  MailSlurp.currentEmail (this s) = Some email ->
  seeEmailAttachment mailslurp RegExp RegExp_new String_match nameRegExp s
  = bind (seeEmailAttachment_loop mailslurp RegExp RegExp_new String_match
            nameRegExp (Email.id email) (Email.attachments email) [])
      (fun out =>
         let (returned, foundAttachmentNames) := out : bool * list string in
         if returned then ret tt
         else expect_toBeFalsy
                (attachment_not_found nameRegExp (Email.subject email)
                   foundAttachmentNames)) s.
Proof.
  intros Hopen. unfold seeEmailAttachment, _hasCurrentEmail. unfold_M.
  rewrite Hopen. simpl. now rewrite Hopen.
Qed.

(** X17.  [seeEmailAttachment] only makes requests: it changes no field
    of the helper and writes nothing, and on an open e-mail the requests it
    makes are the metadata requests for a first part of the attachments of
    that e-mail, in their order, whatever the service answers and whatever
    the pattern is. *)
Theorem seeEmailAttachment_only_asks_for_metadata (mailslurp : MailSlurpClient.t)
    (RegExp : Type) (RegExp_new : string -> option RegExp)
    (String_match : string -> RegExp -> bool) (s : State) (nameRegExp : string) :
  let s' := snd (seeEmailAttachment mailslurp RegExp RegExp_new String_match nameRegExp s) in
  this s' = this s /\
  console s' = console s /\
  forall email,
    MailSlurp.currentEmail (this s) = Some email ->
    exists n,
      calls s'
      = calls s ++ map (metadata_request (Email.id email))
                     (firstn n (Email.attachments email)).
Proof.
  intros s'. subst s'. split; [|split].
  - unfold seeEmailAttachment.
    apply preserves_bind; [apply this_hasCurrentEmail|]. intros _.
    apply preserves_bind; [apply this_email_field|]. intros email.
    apply preserves_bind; [apply this_loop|]. intros [[|] found];
      [apply preserves_ret | apply this_toBeFalsy].
  - unfold seeEmailAttachment.
    apply console_bind; [apply console_hasCurrentEmail|]. intros _.
    apply console_bind; [apply console_email_field|]. intros email.
    apply console_bind; [apply console_loop|]. intros [[|] found];
      [intros s0; reflexivity | apply console_toBeFalsy].
  - intros email Hopen.
    rewrite (seeEmailAttachment_open mailslurp RegExp RegExp_new String_match s email
               nameRegExp Hopen).
    destruct (calls_loop mailslurp RegExp RegExp_new String_match nameRegExp
                (Email.id email) (Email.attachments email) [] s) as [n Hn].
    exists n. rewrite <- Hn. unfold bind.
    destruct (seeEmailAttachment_loop _ _ _ _ _ _ _ _ s) as [[[[|] found]|e] s1];
      reflexivity.
Qed.

Lemma seeEmailAttachment_only_asks_for_metadata_witness :
  exists n,
    calls (snd (seeEmailAttachment test_client string literal_RegExp_new
                  literal_String_match "pdf" test_reading))
    = calls test_reading
      ++ map (metadata_request "email-id") (firstn n ["mock-attachment-id"]).
Proof.
  exact (proj2 (proj2 (seeEmailAttachment_only_asks_for_metadata test_client string
                         literal_RegExp_new literal_String_match test_reading "pdf"))
           test_email eq_refl).
Defined.

(** X18.  On an open e-mail without attachments, [seeEmailAttachment] fails
    with the failure of [expect] on the text that ends with [No attachments
    found at all in e-mail.]; it makes no request and does not even build
    the regular expression, so that a pattern the engine refuses gives the
    same failure. *)
Theorem seeEmailAttachment_without_attachments (mailslurp : MailSlurpClient.t)
    (RegExp : Type) (RegExp_new : string -> option RegExp)
    (String_match : string -> RegExp -> bool)
    (s : State) (email : Email.t) (nameRegExp : string) :
  MailSlurp.currentEmail (this s) = Some email ->
  Email.attachments email = [] ->
  seeEmailAttachment mailslurp RegExp RegExp_new String_match nameRegExp s
  = (Throw (AssertionError
              (Expect.mk "toBeFalsy" false
                 (Expect.Str
                    ("Attachment with name " ++ JS.dquote ++ nameRegExp ++ JS.dquote
                     ++ " not found in e-mail with subject " ++ JS.dquote
                     ++ Email.subject email ++ JS.dquote
                     ++ ". No attachments found at all in e-mail."))
                 None)),
     s).
Proof.
  intros Hopen Hnone.
  rewrite (seeEmailAttachment_open mailslurp RegExp RegExp_new String_match s email
             nameRegExp Hopen), Hnone.
  unfold bind. cbn [seeEmailAttachment_loop]. unfold ret.
  rewrite attachment_not_found_truthy. reflexivity.
Qed.

Lemma seeEmailAttachment_without_attachments_witness :
  fst (seeEmailAttachment test_client string no_RegExp_new literal_String_match "(("
         test_reading_plain)
  = Throw (AssertionError
             (Expect.mk "toBeFalsy" false
                (Expect.Str
                   ("Attachment with name " ++ JS.dquote ++ "((" ++ JS.dquote
                    ++ " not found in e-mail with subject " ++ JS.dquote
                    ++ "Hello Test" ++ JS.dquote
                    ++ ". No attachments found at all in e-mail."))
                None)).
Proof.
  rewrite (seeEmailAttachment_without_attachments test_client string no_RegExp_new
             literal_String_match test_reading_plain plain_email "((" eq_refl eq_refl).
  reflexivity.
Defined.

(** X19.  On an open e-mail with attachments and a pattern the engine
    refuses, [seeEmailAttachment] fails with the SyntaxError of [new RegExp]
    only after the metadata of the first attachment was requested and
    resolved: one request is made. *)
Theorem seeEmailAttachment_invalid_pattern (mailslurp : MailSlurpClient.t)
    (RegExp : Type) (RegExp_new : string -> option RegExp)
    (String_match : string -> RegExp -> bool)
    (s : State) (email : Email.t) (nameRegExp a : string) (rest : list string)
    (meta : AttachmentMetaData.t) :
  MailSlurp.currentEmail (this s) = Some email ->
  Email.attachments email = a :: rest ->
  RegExp_new nameRegExp = None ->
  mailslurp (calls s) (metadata_request (Email.id email) a) = Ok meta ->
  seeEmailAttachment mailslurp RegExp RegExp_new String_match nameRegExp s
  = (Throw (SyntaxError nameRegExp), metadata_asked (Email.id email) s [a]).
Proof.
  intros Hopen Hatt Hbad Hmeta.
  rewrite (seeEmailAttachment_open mailslurp RegExp RegExp_new String_match s email
             nameRegExp Hopen), Hatt.
  unfold bind at 1. cbn [seeEmailAttachment_loop]. unfold bind at 1.
  rewrite call_run. fold (metadata_request (Email.id email) a).
  now rewrite Hmeta, Hbad.
Qed.

Lemma seeEmailAttachment_invalid_pattern_witness :
  seeEmailAttachment test_client string no_RegExp_new literal_String_match "((" test_reading
  = (Throw (SyntaxError "(("),
     mkState (this test_reading)
       [MailSlurpClient.getAttachmentMetaData "mock-attachment-id" "email-id"] []).
Proof.
  exact (seeEmailAttachment_invalid_pattern test_client string no_RegExp_new
           literal_String_match test_reading test_email "((" "mock-attachment-id" []
           (AttachmentMetaData.mk "README.md" "text/plain")
           eq_refl eq_refl eq_refl eq_refl).
Defined.

(** X20.  When the service rejects the metadata request of an attachment,
    the names before it not matching, [seeEmailAttachment] fails with that
    rejection and the attachments after it are not looked at. *)
Theorem seeEmailAttachment_stops_at_rejection (mailslurp : MailSlurpClient.t)
    (RegExp : Type) (RegExp_new : string -> option RegExp)
    (String_match : string -> RegExp -> bool)
    (s : State) (email : Email.t) (nameRegExp : string) (regexp : RegExp)
    (pre names : list string) (a : string) (post : list string) (e : error) :
  MailSlurp.currentEmail (this s) = Some email ->
  RegExp_new nameRegExp = Some regexp ->
  Email.attachments email = pre ++ a :: post ->
  resolves_names mailslurp (Email.id email) (calls s) pre names ->
  Forall (fun name => String_match name regexp = false) names ->
  mailslurp (calls s ++ map (metadata_request (Email.id email)) pre)
    (metadata_request (Email.id email) a) = Throw e ->
  seeEmailAttachment mailslurp RegExp RegExp_new String_match nameRegExp s
  = (Throw e, metadata_asked (Email.id email) s (pre ++ [a])).
Proof.
  intros Hopen Hvalid Hatt Hres Hall Hrej.
  rewrite (seeEmailAttachment_open mailslurp RegExp RegExp_new String_match s email
             nameRegExp Hopen), Hatt.
  unfold bind.
  now rewrite (loop_rejected mailslurp RegExp RegExp_new String_match nameRegExp
                 (Email.id email) regexp pre names a post [] s e Hvalid Hres Hall Hrej).
Qed.

Lemma seeEmailAttachment_stops_at_rejection_witness :
  seeEmailAttachment offline_client string literal_RegExp_new literal_String_match
    "README" test_reading
  = (Throw (Rejection "network error"),
     mkState (this test_reading)
       [MailSlurpClient.getAttachmentMetaData "mock-attachment-id" "email-id"] []).
Proof.
  exact (seeEmailAttachment_stops_at_rejection offline_client string literal_RegExp_new
           literal_String_match test_reading test_email "README" "README"
           [] [] "mock-attachment-id" [] (Rejection "network error")
           eq_refl eq_refl eq_refl I (Forall_nil _) eq_refl).
Defined.

(** * The record of mailboxes during a test *)

Lemma haveExistingMailbox_resolved (mailslurp : MailSlurpClient.t) (s : State)
    (mailboxId : string) (inbox : Inbox.t) (recorded : list Inbox.t) :
  mailboxId <> EmptyString ->
  MailSlurp.mailboxes (this s) = Some recorded ->
  mailslurp (calls s) (MailSlurpClient.getInbox mailboxId) = Ok inbox ->
  haveExistingMailbox mailslurp (Some mailboxId) s
  = (Ok inbox,
     mkState (MailSlurp.mk (MailSlurp.config (this s)) (Some (recorded ++ [inbox]))
                (Some inbox) (MailSlurp.currentEmail (this s)))
       (calls s ++ [MailSlurpClient.getInbox mailboxId]) (console s)).
Proof.
  intros Hid Hrec Hget. destruct mailboxId as [|c rest]; [contradiction|].
  unfold haveExistingMailbox. unfold_M. simpl. rewrite Hget. simpl. now rewrite Hrec.
Qed.

(** X21.  The record has no notion of identity: taking the same existing
    mailbox twice records it twice, and [_after] then requests its deletion
    twice. *)
Theorem same_mailbox_twice_is_deleted_twice (mailslurp : MailSlurpClient.t) (s : State)
    (mailboxId : string) (inbox : Inbox.t) (recorded : list Inbox.t) :
  mailboxId <> EmptyString ->
  MailSlurp.mailboxes (this s) = Some recorded ->
  (forall hist, mailslurp hist (MailSlurpClient.getInbox mailboxId) = Ok inbox) ->
  let s2 := snd (haveExistingMailbox mailslurp (Some mailboxId)
                   (snd (haveExistingMailbox mailslurp (Some mailboxId) s))) in
  MailSlurp.mailboxes (this s2) = Some (recorded ++ [inbox; inbox]) /\
  calls (snd (_after mailslurp s2))
  = calls s2 ++ map delete_request recorded ++ [delete_request inbox; delete_request inbox].
Proof.
  intros Hid Hrec Hget s2.
  assert (E : MailSlurp.mailboxes (this s2) = Some (recorded ++ [inbox; inbox])).
  { subst s2.
    rewrite (haveExistingMailbox_resolved mailslurp s mailboxId inbox recorded Hid Hrec
               (Hget _)).
    cbn [snd].
    erewrite haveExistingMailbox_resolved; [|exact Hid|reflexivity|apply Hget].
    cbn [snd this MailSlurp.mailboxes]. now rewrite <- app_assoc. }
  split; [exact E|].
  rewrite (_after_requests mailslurp s2 _ E). now rewrite map_app.
Qed.

Lemma same_mailbox_twice_is_deleted_twice_witness :
  calls (snd (_after test_client
                (snd (haveExistingMailbox test_client (Some "123")
                        (snd (haveExistingMailbox test_client (Some "123")
                                (test_state test_helper)))))))
  = [MailSlurpClient.getInbox "123"; MailSlurpClient.getInbox "123";
     MailSlurpClient.deleteInbox "123"; MailSlurpClient.deleteInbox "123"].
Proof.
  exact (proj2 (same_mailbox_twice_is_deleted_twice test_client (test_state test_helper)
                  "123" test_inbox [] ltac:(discriminate) eq_refl
                  (fun _ => eq_refl))).
Defined.

(** What one step of a test does to the record and to the configuration. *)
Lemma perform_keeps_the_record (mailslurp : MailSlurpClient.t)
    (RegExp : Type) (RegExp_new : string -> option RegExp)
    (String_match : string -> RegExp -> bool)
    (a : action) (s : State) (recorded : list Inbox.t) :
  MailSlurp.mailboxes (this s) = Some recorded ->
  exists added,
    MailSlurp.mailboxes (this (snd (perform mailslurp RegExp RegExp_new String_match a s)))
    = Some (recorded ++ added) /\
    Forall (from_service mailslurp) added /\
    MailSlurp.config (this (snd (perform mailslurp RegExp RegExp_new String_match a s)))
    = MailSlurp.config (this s).
Proof.
  intros H.
  assert (Same : forall c : M unit,
             this (snd (c s)) = this s ->
             exists added,
               MailSlurp.mailboxes (this (snd (c s))) = Some (recorded ++ added) /\
               Forall (from_service mailslurp) added /\
               MailSlurp.config (this (snd (c s))) = MailSlurp.config (this s)).
  { intros c E. exists []. rewrite E, app_nil_r. now repeat split. }
  assert (Dropped : forall (A : Type) (c : M A),
             this (snd (statement c s)) = this (snd (c s))).
  { intros A c. unfold statement, bind, ret. now destruct (c s) as [[x|e] s1]. }
  destruct a; cbn [perform].
  - (* haveNewMailbox *)
    rewrite Dropped. unfold haveNewMailbox. unfold_M. simpl.
    destruct (mailslurp (calls s) MailSlurpClient.createInbox) as [inbox|e] eqn:Hc; simpl.
    + rewrite H. simpl. exists [inbox]. repeat split. constructor; [|constructor].
      left. now exists (calls s).
    + exists []. rewrite app_nil_r. now repeat split.
  - (* haveExistingMailbox *)
    rewrite Dropped. destruct mailboxId as [[|c rest]|];
      try (exists []; rewrite app_nil_r; now repeat split).
    unfold haveExistingMailbox. unfold_M. simpl.
    destruct (mailslurp (calls s) (MailSlurpClient.getInbox (String c rest)))
      as [inbox|e] eqn:Hc; simpl.
    + rewrite H. simpl. exists [inbox]. repeat split. constructor; [|constructor].
      right. now exists (calls s), (String c rest).
    + exists []. rewrite app_nil_r. now repeat split.
  - exists []. rewrite app_nil_r. now repeat split.
  - exists []. rewrite app_nil_r. now repeat split.
  - apply Same. unfold sendEmail, call, currentMailbox_id. frame.
  - rewrite Dropped. exists []. rewrite app_nil_r.
    unfold waitForLatestEmail. unfold_M. split_cases; repeat split; simpl;
      (congruence || constructor).
  - rewrite Dropped. exists []. rewrite app_nil_r.
    unfold waitForEmailMatching. unfold_M. split_cases; repeat split; simpl;
      (congruence || constructor).
  - rewrite Dropped. exists []. rewrite app_nil_r.
    unfold waitForNthEmail. unfold_M. split_cases; repeat split; simpl;
      (congruence || constructor).
  - exists []. rewrite app_nil_r, !Dropped, grabEmailsMatching_preserves.
    now repeat split.
  - exists []. rewrite app_nil_r, !Dropped, grabAllEmailsFromMailbox_preserves.
    now repeat split.
  - apply Same. unfold seeInEmailSubject, _hasCurrentEmail, expect_toContain.
    unfold_M. split_cases; reflexivity.
  - apply Same. unfold dontSeeInEmailSubject, _hasCurrentEmail, expect_not_toContain.
    unfold_M. split_cases; reflexivity.
  - apply Same. unfold seeInEmailBody, _hasCurrentEmail, expect_toContain.
    unfold_M. split_cases; reflexivity.
  - apply Same. unfold dontSeeInEmailBody, _hasCurrentEmail, expect_not_toContain.
    unfold_M. split_cases; reflexivity.
  - apply Same. unfold seeEmailIsFrom, _hasCurrentEmail, expect_toContain.
    unfold_M. split_cases; reflexivity.
  - apply Same. unfold seeEmailSubjectEquals, _hasCurrentEmail, expect_toEqual.
    unfold_M. split_cases; reflexivity.
  - apply Same. unfold dontSeeEmailSubjectEquals, _hasCurrentEmail, expect_not_toEqual.
    unfold_M. split_cases; reflexivity.
  - apply Same. unfold seeNumberOfEmailAttachments, _hasCurrentEmail,
      expect_toEqual_number.
    unfold_M. split_cases; reflexivity.
  - apply Same. unfold seeEmailAttachment.
    apply preserves_bind; [apply this_hasCurrentEmail|]. intros _.
    apply preserves_bind; [apply this_email_field|]. intros email.
    apply preserves_bind; [apply this_loop|]. intros [[|] found];
      [apply preserves_ret | apply this_toBeFalsy].
Qed.

(** X22.  Whatever the steps of a test are, whatever the service answers
    and whether the test passes or stops at a failing step: no recorded
    mailbox is dropped or reordered, the mailboxes added to the record are
    inboxes the service resolved a [createInbox] or [getInbox] request with,
    the configuration is unchanged, and the [_after] that follows requests
    the deletion of every recorded mailbox. *)
Theorem test_body_keeps_the_record (mailslurp : MailSlurpClient.t)
    (RegExp : Type) (RegExp_new : string -> option RegExp)
    (String_match : string -> RegExp -> bool)
    (script : list action) (s : State) (recorded : list Inbox.t) :
  MailSlurp.mailboxes (this s) = Some recorded ->
  let s' := snd (test_body mailslurp RegExp RegExp_new String_match script s) in
  exists added,
    MailSlurp.mailboxes (this s') = Some (recorded ++ added) /\
    Forall (from_service mailslurp) added /\
    MailSlurp.config (this s') = MailSlurp.config (this s) /\
    calls (snd (_after mailslurp s')) = calls s' ++ map delete_request (recorded ++ added).
Proof.
  intros H s'.
  assert (Inv : exists added,
             MailSlurp.mailboxes (this s') = Some (recorded ++ added) /\
             Forall (from_service mailslurp) added /\
             MailSlurp.config (this s') = MailSlurp.config (this s)).
  { subst s'. revert s recorded H.
    induction script as [|a rest IH]; intros s recorded H; cbn [test_body].
    - exists []. rewrite app_nil_r. now repeat split.
    - destruct (perform_keeps_the_record mailslurp RegExp RegExp_new String_match
                  a s recorded H) as (added1 & M1 & F1 & C1).
      unfold bind.
      destruct (perform mailslurp RegExp RegExp_new String_match a s) as [[u|e] s1];
        cbn [snd] in *.
      + destruct (IH s1 (recorded ++ added1) M1) as (added2 & M2 & F2 & C2).
        exists (added1 ++ added2). rewrite app_assoc.
        split; [exact M2|]. split; [now apply Forall_app|]. congruence.
      + exists added1. now repeat split. }
  destruct Inv as (added & Hm & Hf & Hc).
  exists added. repeat split; auto.
  now apply _after_requests.
Qed.

Lemma test_body_keeps_the_record_witness :
  exists added,
    MailSlurp.mailboxes
      (this (snd (test_body test_client string literal_RegExp_new literal_String_match
                    [HaveNewMailbox; OpenMailbox None; WaitForLatestEmail None;
                     HaveNewMailbox]
                    three_mailboxes)))
    = Some ([Inbox.mk "a" "a@test.de"; Inbox.mk "b" "b@test.de"; Inbox.mk "c" "c@test.de"]
            ++ added) /\
    Forall (from_service test_client) added.
Proof.
  destruct (test_body_keeps_the_record test_client string literal_RegExp_new
              literal_String_match
              [HaveNewMailbox; OpenMailbox None; WaitForLatestEmail None; HaveNewMailbox]
              three_mailboxes _ eq_refl) as (added & M & F & _).
  exists added. exact (conj M F).
Defined.
